(** * Tribomagnetic memory demo: domain dynamics and SAW propagation

    A shallow embedding of the simulation core of
    [tribomagnetic_memory_demo.py]: the per-domain dictionaries of
    [domain_states], the module-level toggles [saw_on] / [tribo_on], the
    traveling SAW position, the body of the animation loop (one iteration
    is [tick]) and the aggregate computation of
    [update_digital_twin_text].

    Numbers.  The program computes on IEEE doubles.  They are idealised
    here as the real numbers of the Standard Library: [+], [-], [*], [/]
    are exact, [np.sin], [np.cos] are [sin], [cos], [np.radians d] is
    [d * (PI / 180)] and [np.arctan2] is the two-argument arctangent
    built on [atan].  Every statement below is a statement about this
    idealisation; rounding is out of scope.

    Presentation objects (labels, arrow axis and colour, the charge glow,
    button texts, the formatted read-out) carry no simulation state and
    are left out.  Of [saw_visual] the fields the loop reads back are
    kept: [pos.z], [size.z] and [visible]. *)

From Stdlib Require Import ZArith Reals Lra Lia List Bool.
Import ListNotations.
Open Scope R_scope.

(** ** Comparisons as booleans *)

Definition Rltb (x y : R) : bool := if Rlt_dec x y then true else false.
Definition Rleb (x y : R) : bool := if Rle_dec x y then true else false.
Definition Rgtb (x y : R) : bool := Rltb y x.
Definition Rgeb (x y : R) : bool := Rleb y x.

(** ** Simulation parameters *)

Definition FILM_WIDTH : R := 200e-9.
Definition FILM_LENGTH : R := 1000e-9.
Definition FILM_THICKNESS : R := 30e-9.
Definition DOMAIN_SIZE : R := 25e-9.
(** [int(FILM_WIDTH / DOMAIN_SIZE)] and [int(FILM_LENGTH / DOMAIN_SIZE)]. *)
Definition NUM_DOMAINS_X : nat := 8.
Definition NUM_DOMAINS_Y : nat := 40.

Definition INITIAL_MAGNETIZATION_ANGLE_DEG : R := 0.
Definition MAX_ROTATION_STRAIN_DEG : R := 15.
Definition TRIBO_ENHANCEMENT_FACTOR : R := 1.4.
Definition MAX_ROTATION_TRIBO_DEG : R :=
  MAX_ROTATION_STRAIN_DEG * TRIBO_ENHANCEMENT_FACTOR.

Definition RETENTION_TIME_STRAIN_S : R := 2.0.
Definition RETENTION_TIME_TRIBO_S : R := 6.0.

Definition saw_visual_thickness : R := DOMAIN_SIZE.
(** [saw_visual.size.z], fixed when the box is created. *)
Definition saw_visual_size_z : R := saw_visual_thickness.
Definition saw_speed : R := FILM_LENGTH / 5.0.
(** The value [-saw_visual_thickness/2] the SAW starts from and is reset to. *)
Definition saw_start : R := - saw_visual_thickness / 2.
(** The loop's own timestep. *)
Definition dt_demo : R := 0.01.

(** ** AngleMath *)

Definition radians (deg : R) : R := deg * (PI / 180).

Definition arctan2 (y x : R) : R :=
  if Rlt_dec 0 x then atan (y / x)
  else if Rlt_dec x 0 then
         if Rle_dec 0 y then atan (y / x) + PI else atan (y / x) - PI
       else if Rlt_dec 0 y then PI / 2
            else if Rlt_dec y 0 then - (PI / 2)
                 else 0.

(** The idiom [np.arctan2(np.sin(a), np.cos(a))] of the loop. *)
Definition normalize (a : R) : R := arctan2 (sin a) (cos a).

(** The rotation threshold [np.radians(0.5)]. *)
Definition epsilon : R := radians 0.5.

(** ** DomainCell *)

Record domain_state : Type := mkState {
  current_angle_rad : R;
  target_angle_rad : R;
  retention_timer : R;
  original_angle_rad : R;
  is_flipped : bool;
  max_rotation_rad : R
}.

(** The three states of the spec, read off the dictionary fields. *)
Inductive cell_tag : Type := AtRest | Holding | Relaxing.

Definition tag_of (st : domain_state) : cell_tag :=
  if is_flipped st
  then if Rgtb (retention_timer st) 0 then Holding else Relaxing
  else AtRest.

(** Entry of a domain as appended by the creation loop. *)
Definition new_state (initial_angle_rad : R) : domain_state :=
  {| current_angle_rad := initial_angle_rad;
     target_angle_rad := initial_angle_rad;
     retention_timer := 0.0;
     original_angle_rad := initial_angle_rad;
     is_flipped := false;
     max_rotation_rad := 0.0 |}.

(** Body of [if not state['is_flipped']:] in the trigger block. *)
Definition trigger (tribo_on : bool) (st : domain_state) : domain_state :=
  let max_rotation_this_flip_deg :=
    if tribo_on then MAX_ROTATION_TRIBO_DEG else MAX_ROTATION_STRAIN_DEG in
  let target :=
    if Rgeb (cos (original_angle_rad st)) 0
    then original_angle_rad st - radians max_rotation_this_flip_deg
    else original_angle_rad st + radians max_rotation_this_flip_deg in
  let target := normalize target in
  {| current_angle_rad := current_angle_rad st;
     target_angle_rad := target;
     retention_timer :=
       if tribo_on then RETENTION_TIME_TRIBO_S else RETENTION_TIME_STRAIN_S;
     original_angle_rad := original_angle_rad st;
     is_flipped := true;
     max_rotation_rad := target |}.

(** The "SAW is over this domain" test: the domain's extent
    [pos.z -/+ DOMAIN_SIZE/2] against the band's extent
    [saw_visual.pos.z -/+ saw_visual.size.z/2]. *)
Definition saw_over_domain (domain_pos_z saw_visual_pos_z : R) : bool :=
  Rltb (domain_pos_z - DOMAIN_SIZE / 2)
       (saw_visual_pos_z + saw_visual_size_z / 2)
  && Rgtb (domain_pos_z + DOMAIN_SIZE / 2)
          (saw_visual_pos_z - saw_visual_size_z / 2).

(** One iteration of the "Interact with domains" loop. *)
Definition interact (tribo_on : bool) (saw_visual_pos_z domain_pos_z : R)
    (st : domain_state) : domain_state :=
  if saw_over_domain domain_pos_z saw_visual_pos_z
  then if negb (is_flipped st) then trigger tribo_on st else st
  else st.

(** First statement of the rotation/retention loop body: the step
    towards [target_angle_rad]. *)
Definition rotate_to_target (st : domain_state) : domain_state :=
  if is_flipped st
     && Rgtb (Rabs (current_angle_rad st - target_angle_rad st)) (radians 0.5)
  then
    let angle_diff := target_angle_rad st - current_angle_rad st in
    let angle_diff := normalize angle_diff in
    let current := current_angle_rad st + angle_diff * 0.2 in
    {| current_angle_rad := normalize current;
       target_angle_rad := target_angle_rad st;
       retention_timer := retention_timer st;
       original_angle_rad := original_angle_rad st;
       is_flipped := is_flipped st;
       max_rotation_rad := max_rotation_rad st |}
  else st.

(** Second statement: the [if ... elif ...] on the retention timer. *)
Definition retain_or_relax (dt : R) (st : domain_state) : domain_state :=
  if is_flipped st && Rgtb (retention_timer st) 0 then
    let timer := retention_timer st - dt in
    if Rleb timer 0 then
      {| current_angle_rad := current_angle_rad st;
         target_angle_rad := original_angle_rad st;
         retention_timer := 0;
         original_angle_rad := original_angle_rad st;
         is_flipped := is_flipped st;
         max_rotation_rad := max_rotation_rad st |}
    else
      {| current_angle_rad := current_angle_rad st;
         target_angle_rad := target_angle_rad st;
         retention_timer := timer;
         original_angle_rad := original_angle_rad st;
         is_flipped := is_flipped st;
         max_rotation_rad := max_rotation_rad st |}
  else if is_flipped st && Rleb (retention_timer st) 0 then
    if Rgtb (Rabs (current_angle_rad st - original_angle_rad st)) (radians 0.5)
    then
      let angle_diff := original_angle_rad st - current_angle_rad st in
      let angle_diff := normalize angle_diff in
      let current := current_angle_rad st + angle_diff * 0.05 in
      {| current_angle_rad := normalize current;
         target_angle_rad := target_angle_rad st;
         retention_timer := retention_timer st;
         original_angle_rad := original_angle_rad st;
         is_flipped := is_flipped st;
         max_rotation_rad := max_rotation_rad st |}
    else
      {| current_angle_rad := original_angle_rad st;
         target_angle_rad := target_angle_rad st;
         retention_timer := retention_timer st;
         original_angle_rad := original_angle_rad st;
         is_flipped := false;
         max_rotation_rad := 0.0 |}
  else st.

(** One iteration of the "Handle domain rotation and retention" loop. *)
Definition update_domain (dt : R) (st : domain_state) : domain_state :=
  retain_or_relax dt (rotate_to_target st).

(** ** WavefrontModel and DomainGrid: the globals of the script *)

Record world : Type := mkWorld {
  saw_on : bool;
  tribo_on : bool;
  saw_visual_y_pos : R;
  saw_visual_pos_z : R;
  saw_visual_visible : bool;
  domains : list R;               (* [pos.z] of each arrow *)
  domain_states : list domain_state
}.

(** The creation loop: [for i in range(NUM_DOMAINS_X): for j in
    range(NUM_DOMAINS_Y)].  [rnd i j] is the value drawn by
    [random.uniform(-5,5)] for that domain. *)
Definition domain_y_pos (j : nat) : R := (INR j + 0.5) * DOMAIN_SIZE.

Definition initial_angle (rnd : nat -> nat -> R) (i j : nat) : R :=
  radians (INITIAL_MAGNETIZATION_ANGLE_DEG + rnd i j).

Definition initial_domains : list R :=
  flat_map (fun _ : nat => map domain_y_pos (seq 0 NUM_DOMAINS_Y))
           (seq 0 NUM_DOMAINS_X).

Definition initial_domain_states (rnd : nat -> nat -> R) : list domain_state :=
  flat_map (fun i => map (fun j => new_state (initial_angle rnd i j))
                         (seq 0 NUM_DOMAINS_Y))
           (seq 0 NUM_DOMAINS_X).

Definition initial_world (rnd : nat -> nat -> R) : world :=
  {| saw_on := false;
     tribo_on := false;
     saw_visual_y_pos := - saw_visual_thickness / 2;
     saw_visual_pos_z := - saw_visual_thickness / 2;
     saw_visual_visible := false;
     domains := initial_domains;
     domain_states := initial_domain_states rnd |}.

(** [toggle_saw]: flips [saw_on]; on switching on it resets the
    visual object's [pos.z], not the loop variable [saw_visual_y_pos]. *)
Definition toggle_saw (w : world) : world :=
  let on := negb (saw_on w) in
  {| saw_on := on;
     tribo_on := tribo_on w;
     saw_visual_y_pos := saw_visual_y_pos w;
     saw_visual_pos_z :=
       if on then - saw_visual_thickness / 2 else saw_visual_pos_z w;
     saw_visual_visible := on;
     domains := domains w;
     domain_states := domain_states w |}.

Definition toggle_tribo (w : world) : world :=
  {| saw_on := saw_on w;
     tribo_on := negb (tribo_on w);
     saw_visual_y_pos := saw_visual_y_pos w;
     saw_visual_pos_z := saw_visual_pos_z w;
     saw_visual_visible := saw_visual_visible w;
     domains := domains w;
     domain_states := domain_states w |}.

(** The SAW position after [saw_visual_y_pos += saw_speed * dt]. *)
Definition advanced (dt : R) (w : world) : R :=
  saw_visual_y_pos w + saw_speed * dt.

(** The reset test of the loop, on the advanced position. *)
Definition wrap (y : R) : R :=
  if Rgtb y (FILM_LENGTH + saw_visual_thickness / 2)
  then - saw_visual_thickness / 2
  else y.

(** The loops run over [enumerate(domains)] and index [domain_states]
    with the same [i]; both lists have one entry per domain. *)
Definition map_states (f : R -> domain_state -> domain_state)
    (ds : list R) (sts : list domain_state) : list domain_state :=
  map (fun p => f (fst p) (snd p)) (combine ds sts).

(** One iteration of [while True:] with timestep [dt]. *)
Definition tick (dt : R) (w : world) : world :=
  if saw_on w then
    let y := advanced dt w in
    (* saw_visual.pos.z is assigned before the reset test *)
    let z := y in
    let sts := map_states (interact (tribo_on w) z)
                          (domains w) (domain_states w) in
    {| saw_on := saw_on w;
       tribo_on := tribo_on w;
       saw_visual_y_pos := wrap y;
       saw_visual_pos_z := z;
       saw_visual_visible := saw_visual_visible w;
       domains := domains w;
       domain_states :=
         map_states (fun _ => update_domain dt) (domains w) sts |}
  else
    {| saw_on := saw_on w;
       tribo_on := tribo_on w;
       saw_visual_y_pos := saw_visual_y_pos w;
       saw_visual_pos_z := saw_visual_pos_z w;
       saw_visual_visible := saw_visual_visible w;
       domains := domains w;
       domain_states :=
         map_states (fun _ => update_domain dt)
                    (domains w) (domain_states w) |}.

(** What one loop iteration does to a single domain at [domain_pos_z]. *)
Definition cell_tick (dt : R) (on tribo : bool) (saw_z domain_pos_z : R)
    (st : domain_state) : domain_state :=
  update_domain dt (if on then interact tribo saw_z domain_pos_z st else st).

(** ** Runs of the loop *)

(** What can happen between two observations of the globals: one loop
    iteration, or a click on one of the two buttons. *)
Inductive event : Type :=
| Tick (dt : R)
| ToggleSaw
| ToggleTribo.

Definition step (e : event) (w : world) : world :=
  match e with
  | Tick dt => tick dt w
  | ToggleSaw => toggle_saw w
  | ToggleTribo => toggle_tribo w
  end.

Definition run (evs : list event) (w : world) : world :=
  fold_left (fun w e => step e w) evs w.

(** States the program can be in: started with draws [rnd], then any
    interleaving of iterations and clicks. *)
Inductive reachable (rnd : nat -> nat -> R) : world -> Prop :=
| reach_init : reachable rnd (initial_world rnd)
| reach_step : forall e w, reachable rnd w -> reachable rnd (step e w).

(** [random.uniform(-5,5)] returns a value between its two bounds. *)
Definition uniform_draws (rnd : nat -> nat -> R) : Prop :=
  forall i j, -5 <= rnd i j <= 5.

(** State of domain [c] after the first [n] events of [evs]. *)
Definition cell_at (evs : list event) (w : world) (c n : nat)
  : option domain_state :=
  nth_error (domain_states (run (firstn n evs) w)) c.

(** Domain [c] is flipped by event number [n]: unflipped before it,
    flipped after it. *)
Definition fires_at (evs : list event) (w : world) (c n : nat) : Prop :=
  exists s s',
    cell_at evs w c n = Some s /\ cell_at evs w c (S n) = Some s' /\
    tag_of s = AtRest /\ tag_of s' <> AtRest.

(** Domain [c] goes from Relaxing to AtRest in event number [n]. *)
Definition settles_at (evs : list event) (w : world) (c n : nat) : Prop :=
  exists s s',
    cell_at evs w c n = Some s /\ cell_at evs w c (S n) = Some s' /\
    tag_of s = Relaxing /\ tag_of s' = AtRest.

(** ** AggregateMetrics: the numbers of [update_digital_twin_text] *)

Definition base_nT : R := 10.
Definition max_nT_strain : R := 30.
Definition max_nT_tribo : R := 50.

(** Body of the [for i, state in enumerate(domain_states)] loop on the
    pair [(avg_rotation_perc, active_domains)]. *)
Definition accumulate (acc : R * nat) (state : domain_state) : R * nat :=
  if is_flipped state then
    let angle_diff :=
      Rabs (current_angle_rad state - original_angle_rad state) in
    let max_possible_rot_this_flip :=
      Rabs (max_rotation_rad state - original_angle_rad state) in
    if Rgtb max_possible_rot_this_flip (radians 1)
    then (fst acc + angle_diff / max_possible_rot_this_flip * 100,
          S (snd acc))
    else acc
  else acc.

Definition avg_rotation_perc (sts : list domain_state) : R :=
  let acc := fold_left accumulate sts (0, 0%nat) in
  if (0 <? snd acc)%nat then fst acc / INR (snd acc) else 0.

Definition current_max_nT (tribo : bool) : R :=
  if tribo then max_nT_tribo else max_nT_strain.

(** The interpolation before the clamp. *)
Definition interpolated_delta_B_nT (tribo : bool) (sts : list domain_state)
  : R :=
  base_nT + (current_max_nT tribo - base_nT) * (avg_rotation_perc sts / 100.0).

Definition simulated_delta_B_nT (tribo : bool) (sts : list domain_state) : R :=
  Rmax base_nT (Rmin (interpolated_delta_B_nT tribo sts) (current_max_nT tribo)).

(** ** Predicates used in the statements *)

(** The half-open interval (-PI, PI]. *)
Definition in_range (a : R) : Prop := - PI < a <= PI.

(** The overlap interval as the specification words it: the domain's
    coordinate within half a band width of the band's position. *)
Definition spec_overlaps (domain_pos_z leading_edge : R) : Prop :=
  leading_edge - saw_visual_size_z / 2 <= domain_pos_z
  <= leading_edge + saw_visual_size_z / 2.

(** The wrap threshold as the specification words it: film length plus
    the full band width. *)
Definition spec_wrap_threshold : R := FILM_LENGTH + saw_visual_thickness.

(** A domain that is at rest, or flipped but still at its original angle. *)
Definition undisplaced (st : domain_state) : Prop :=
  is_flipped st = false \/ current_angle_rad st = original_angle_rad st.

(** What holds of every domain in every reachable state: the angles are
    normalised, the timer is not negative, a domain whose retention has
    run out is heading back to its original angle, and a domain at rest
    sits at it with everything cleared. *)
Definition cell_inv (st : domain_state) : Prop :=
  in_range (current_angle_rad st) /\
  in_range (target_angle_rad st) /\
  in_range (original_angle_rad st) /\
  0 <= retention_timer st /\
  (retention_timer st <= 0 -> target_angle_rad st = original_angle_rad st) /\
  (is_flipped st = false ->
     current_angle_rad st = original_angle_rad st /\
     retention_timer st = 0 /\ max_rotation_rad st = 0).

Definition world_inv (w : world) : Prop :=
  length (domains w) = length (domain_states w) /\
  saw_visual_y_pos w <= FILM_LENGTH + saw_visual_thickness / 2 /\
  Forall cell_inv (domain_states w).

(** The angle the specification announces for a Relaxing domain after
    one iteration: 5% of the shortest-path residual closer to the
    original angle. *)
Definition spec_relax_step (st : domain_state) : R :=
  normalize (current_angle_rad st
             + normalize (original_angle_rad st - current_angle_rad st) * 0.05).

(** ** Concrete states of the program *)

(** The draws that are all 0: every domain starts at angle 0. *)
Definition rnd0 : nat -> nat -> R := fun _ _ => 0.

(** The SAW button clicked once on the initial state. *)
Definition started_world : world := toggle_saw (initial_world rnd0).

(** ... and the loop run once: the SAW is at -10.5 nm and the first row
    of domains (at 12.5 nm) has been triggered. *)
Definition first_pass_world : world := tick dt_demo started_world.

(** A domain with original angle 0 whose retention has just run out
    while it sat at [a] degrees (flipped without the boost). *)
Definition relaxing_at (a : R) : domain_state :=
  {| current_angle_rad := radians a;
     target_angle_rad := 0;
     retention_timer := 0;
     original_angle_rad := 0;
     is_flipped := true;
     max_rotation_rad := radians (-15) |}.

(** A domain with original angle 0, flipped without the boost, that
    sits at [a] degrees with [t] seconds of retention left. *)
Definition holding_at (a t : R) : domain_state :=
  {| current_angle_rad := radians a;
     target_angle_rad := radians (-15);
     retention_timer := t;
     original_angle_rad := 0;
     is_flipped := true;
     max_rotation_rad := radians (-15) |}.

(** The one-domain grid of the specification's scenarios: the SAW is
    on, the loop variable is at [y], the band is drawn at [z], and the
    only domain, in the middle of the film (587.5 nm), is in state [st]. *)
Definition probe (y z : R) (st : domain_state) : world :=
  {| saw_on := true;
     tribo_on := false;
     saw_visual_y_pos := y;
     saw_visual_pos_z := z;
     saw_visual_visible := true;
     domains := [domain_y_pos 23];
     domain_states := [st] |}.

(** ** Presentation computed from the state *)

Inductive arrow_color : Type :=
| COLOR_DOMAIN_UP
| COLOR_DOMAIN_DOWN
| COLOR_GRAY_HALF.

(** Colour given to the arrow by the creation loop. *)
Definition initial_color (initial_angle_rad : R) : arrow_color :=
  if Rgtb (cos initial_angle_rad) 0 then COLOR_DOMAIN_UP
  else COLOR_DOMAIN_DOWN.

(** Colour assigned at the end of the rotation/retention loop body. *)
Definition domain_color (st : domain_state) : arrow_color :=
  if Rgtb (cos (current_angle_rad st)) 0.1 then COLOR_DOMAIN_UP
  else if Rltb (cos (current_angle_rad st)) (-0.1) then COLOR_DOMAIN_DOWN
       else COLOR_GRAY_HALF.

(** [domain.axis] assigned in the same place: components x, y, z. *)
Definition domain_axis (st : domain_state) : R * R * R :=
  (0,
   DOMAIN_SIZE * 0.8 * cos (current_angle_rad st),
   DOMAIN_SIZE * 0.8 * sin (current_angle_rad st)).

(** The two "expected" values [update_digital_twin_text] prints. *)
Definition max_rot_deg (tribo : bool) : R :=
  if tribo then MAX_ROTATION_TRIBO_DEG else MAX_ROTATION_STRAIN_DEG.

Definition ret_time_s (tribo : bool) : R :=
  if tribo then RETENTION_TIME_TRIBO_S else RETENTION_TIME_STRAIN_S.

(** ** The refresh flag of the loop *)

(** Whether the rotation/retention loop body sets [any_domain_active]
    for this domain: in the rotation step, in the countdown branch, and
    in the relaxing branch when the domain is still away from its
    original angle (not when it is put back to rest). *)
Definition domain_active (dt : R) (st : domain_state) : bool :=
  let rotated :=
    is_flipped st
    && Rgtb (Rabs (current_angle_rad st - target_angle_rad st))
            (radians 0.5) in
  let st1 := rotate_to_target st in
  let timed :=
    if is_flipped st1 && Rgtb (retention_timer st1) 0 then true
    else if is_flipped st1 && Rleb (retention_timer st1) 0 then
           Rgtb (Rabs (current_angle_rad st1 - original_angle_rad st1))
                (radians 0.5)
         else false in
  rotated || timed.

(** The domain states the rotation/retention loop starts from: after
    the trigger loop when the SAW is on. *)
Definition after_interaction (dt : R) (w : world) : list domain_state :=
  if saw_on w
  then map_states (interact (tribo_on w) (advanced dt w))
                  (domains w) (domain_states w)
  else domain_states w.

(** [any_domain_active] at the end of the iteration. *)
Definition any_domain_active (dt : R) (w : world) : bool :=
  existsb (domain_active dt)
          (map snd (combine (domains w) (after_interaction dt w))).

(** The condition [any_domain_active or saw_on] under which the
    iteration calls [update_digital_twin_text]. *)
Definition refreshes (dt : R) (w : world) : bool :=
  any_domain_active dt w || saw_on w.

(** The two computed numbers of the read-out. *)
Definition readout (tribo : bool) (sts : list domain_state) : R * R :=
  (avg_rotation_perc sts, simulated_delta_B_nT tribo sts).

(** The numbers on screen after an iteration, [shown] being the ones on
    screen before it. *)
Definition shown_after (dt : R) (w : world) (shown : R * R) : R * R :=
  if refreshes dt w
  then readout (tribo_on w) (domain_states (tick dt w))
  else shown.

(** ** More predicates used in the statements *)

(** Iterations that do not go back in time. *)
Definition forward (e : event) : Prop :=
  match e with
  | Tick dt => 0 <= dt
  | _ => True
  end.

(** A flipped domain is no farther from its original angle than the
    target recorded at its trigger. *)
Definition within_max (st : domain_state) : Prop :=
  is_flipped st = true ->
  Rabs (current_angle_rad st - original_angle_rad st)
  <= Rabs (max_rotation_rad st - original_angle_rad st).

(** What the parameters of this program add to [cell_inv]: the original
    angle is within 5 degrees of 0; a flipped domain was rotated by 15
    or 21 degrees to the negative side, and sits between that target
    and its original angle. *)
Definition flight_inv (st : domain_state) : Prop :=
  radians (-5) <= original_angle_rad st <= radians 5 /\
  (is_flipped st = true ->
     (max_rotation_rad st = original_angle_rad st - radians 15 \/
      max_rotation_rad st = original_angle_rad st - radians 21) /\
     max_rotation_rad st <= current_angle_rad st <= original_angle_rad st /\
     (retention_timer st > 0 ->
        target_angle_rad st = max_rotation_rad st)).

(** ** The band's leading edge *)

(** The film box is centred at [FILM_LENGTH/2] with length
    [FILM_LENGTH]: it starts at z = 0. *)
Definition film_start : R := 0.

(** [saw_visual_y_pos] is the centre of the band; its leading edge is
    half a band thickness ahead. *)
Definition leading_edge (w : world) : R :=
  saw_visual_y_pos w + saw_visual_thickness / 2.

(** ** The trigger as an event of a run *)

(** The globals after the first [n] events of [evs]. *)
Definition world_at (evs : list event) (w : world) (n : nat) : world :=
  run (firstn n evs) w.

(** Event number [n] is an iteration that takes domain [c] through the
    AtRest-to-Holding transition: the SAW is on, the band is over the
    domain, the domain is at rest, and its next state is what the
    trigger block followed by the rotation/retention code makes of it. *)
Definition triggered_at (evs : list event) (w : world) (c n : nat) : Prop :=
  exists (dt p : R) (s : domain_state),
    nth_error evs n = Some (Tick dt) /\
    nth_error (domains (world_at evs w n)) c = Some p /\
    cell_at evs w c n = Some s /\
    saw_on (world_at evs w n) = true /\
    saw_over_domain p (advanced dt (world_at evs w n)) = true /\
    tag_of s = AtRest /\
    cell_at evs w c (S n)
    = Some (update_domain dt (trigger (tribo_on (world_at evs w n)) s)).

(** ** The average completion as the specification words it *)

(** A domain the read-out averages over: flipped, with a recorded
    maximum more than 1 degree away from its original angle. *)
Definition is_active (st : domain_state) : bool :=
  is_flipped st
  && Rgtb (Rabs (max_rotation_rad st - original_angle_rad st)) (radians 1).

(** Its rotation as a percentage of the maximum assigned at its
    trigger. *)
Definition completion_perc (st : domain_state) : R :=
  Rabs (current_angle_rad st - original_angle_rad st)
  / Rabs (max_rotation_rad st - original_angle_rad st) * 100.

Definition Rsum (l : list R) : R := fold_right Rplus 0 l.

(** The mean of the percentages over the active domains, 0 when there
    is none. *)
Definition mean_completion (sts : list domain_state) : R :=
  let act := filter is_active sts in
  if (0 <? length act)%nat
  then Rsum (map completion_perc act) / INR (length act)
  else 0.

(** * Basic facts *)

Section Comparisons.

Variables x y : R.

Lemma Rltb_true : Rltb x y = true <-> x < y.
Proof. unfold Rltb. destruct (Rlt_dec x y); split; intros; try easy. Qed.

Lemma Rltb_false : Rltb x y = false <-> y <= x.
Proof.
  unfold Rltb. destruct (Rlt_dec x y); split; intros; try easy; lra.
Qed.

Lemma Rleb_true : Rleb x y = true <-> x <= y.
Proof. unfold Rleb. destruct (Rle_dec x y); split; intros; try easy. Qed.

Lemma Rleb_false : Rleb x y = false <-> y < x.
Proof.
  unfold Rleb. destruct (Rle_dec x y); split; intros; try easy; lra.
Qed.

Lemma Rgtb_true : Rgtb x y = true <-> x > y.
Proof. unfold Rgtb, Rltb. destruct (Rlt_dec y x); split; intros; try easy. Qed.

Lemma Rgtb_false : Rgtb x y = false <-> x <= y.
Proof.
  unfold Rgtb, Rltb. destruct (Rlt_dec y x); split; intros; try easy; lra.
Qed.

Lemma Rgeb_true : Rgeb x y = true <-> x >= y.
Proof.
  unfold Rgeb, Rleb. destruct (Rle_dec y x); split; intros; try easy; lra.
Qed.

Lemma Rgeb_false : Rgeb x y = false <-> x < y.
Proof.
  unfold Rgeb, Rleb. destruct (Rle_dec y x); split; intros; try easy; lra.
Qed.

End Comparisons.

(** Decide a boolean comparison in the goal from the context. *)
Ltac Rtrue :=
  first [ apply Rltb_true | apply Rleb_true | apply Rgtb_true
        | apply Rgeb_true ]; try lra.
Ltac Rfalse :=
  first [ apply Rltb_false | apply Rleb_false | apply Rgtb_false
        | apply Rgeb_false ]; try lra.

(** Split on a boolean comparison, keeping the inequality. *)
Ltac Rcase b H :=
  let E := fresh "E" in
  destruct b eqn:E;
  [ first [ apply Rltb_true in E | apply Rleb_true in E
          | apply Rgtb_true in E | apply Rgeb_true in E ]
  | first [ apply Rltb_false in E | apply Rleb_false in E
          | apply Rgtb_false in E | apply Rgeb_false in E ] ];
  rename E into H.

(** ** Angle normalisation *)

Lemma PI_pos : 0 < PI.
Proof. exact PI_RGT_0. Qed.

Lemma atan_nonpos (t : R) : t <= 0 -> atan t <= 0.
Proof.
  intros [Hlt | Heq].
  - left. rewrite <- atan_0. now apply atan_increasing.
  - subst t. rewrite atan_0. lra.
Qed.

Lemma atan_pos (t : R) : 0 < t -> 0 < atan t.
Proof. intros H. rewrite <- atan_0. now apply atan_increasing. Qed.

Lemma arctan2_in_range (y x : R) : in_range (arctan2 y x).
Proof.
  unfold in_range, arctan2.
  pose proof PI_pos as HPI.
  pose proof (atan_bound (y / x)) as [Hlo Hhi].
  destruct (Rlt_dec 0 x) as [Hx | Hx]; [lra |].
  destruct (Rlt_dec x 0) as [Hx' | Hx'].
  - assert (Hinv : / x < 0) by now apply Rinv_lt_0_compat.
    destruct (Rle_dec 0 y) as [Hy | Hy].
    + assert (atan (y / x) <= 0) by (apply atan_nonpos; unfold Rdiv; nra).
      lra.
    + assert (0 < atan (y / x)) by (apply atan_pos; unfold Rdiv; nra).
      lra.
  - destruct (Rlt_dec 0 y); [lra |].
    destruct (Rlt_dec y 0); lra.
Qed.

Lemma normalize_in_range (a : R) : in_range (normalize a).
Proof. apply arctan2_in_range. Qed.

Ltac Rdec :=
  repeat match goal with
    | |- context [Rlt_dec ?a ?b] => destruct (Rlt_dec a b)
    | |- context [Rle_dec ?a ?b] => destruct (Rle_dec a b)
    end.

Lemma normalize_mid (a : R) : - (PI / 2) < a < PI / 2 -> normalize a = a.
Proof.
  intros [Hlo Hhi]. unfold normalize, arctan2.
  pose proof (cos_gt_0 a Hlo Hhi) as Hc.
  destruct (Rlt_dec 0 (cos a)) as [_ | Hn]; [| contradiction].
  change (sin a / cos a) with (tan a). apply atan_tan. lra.
Qed.

Lemma normalize_upper (a : R) : PI / 2 < a <= PI -> normalize a = a.
Proof.
  intros [Hlo Hhi]. unfold normalize, arctan2.
  pose proof PI_pos as HPI.
  assert (Hc : cos a < 0) by (apply cos_lt_0; lra).
  assert (Hs : 0 <= sin a) by (apply sin_ge_0; lra).
  destruct (Rlt_dec 0 (cos a)) as [Hp | _]; [lra |].
  destruct (Rlt_dec (cos a) 0) as [_ | Hn]; [| contradiction].
  destruct (Rle_dec 0 (sin a)) as [_ | Hn]; [| contradiction].
  assert (Ht : sin a / cos a = tan (a - PI)).
  { unfold tan. replace a with ((a - PI) + PI) at 1 2 by ring.
    rewrite neg_sin, neg_cos. field.
    replace a with ((a - PI) + PI) in Hc by ring. rewrite neg_cos in Hc. lra. }
  rewrite Ht, atan_tan; lra.
Qed.

Lemma normalize_lower (a : R) : - PI < a < - (PI / 2) -> normalize a = a.
Proof.
  intros [Hlo Hhi]. unfold normalize, arctan2.
  pose proof PI_pos as HPI.
  assert (Hc : cos a < 0).
  { rewrite <- cos_neg. apply cos_lt_0; lra. }
  assert (Hs : sin a < 0) by (apply sin_lt_0_var; lra).
  destruct (Rlt_dec 0 (cos a)) as [Hp | _]; [lra |].
  destruct (Rlt_dec (cos a) 0) as [_ | Hn]; [| contradiction].
  destruct (Rle_dec 0 (sin a)) as [Hp | _]; [lra |].
  assert (Ht : sin a / cos a = tan (a + PI)).
  { unfold tan. rewrite neg_sin, neg_cos. field. lra. }
  rewrite Ht, atan_tan; lra.
Qed.

Lemma normalize_id (a : R) : in_range a -> normalize a = a.
Proof.
  intros [Hlo Hhi]. pose proof PI_pos as HPI.
  destruct (Rtotal_order a (- (PI / 2))) as [H | [H | H]].
  - apply normalize_lower; lra.
  - subst a. unfold normalize, arctan2.
    rewrite cos_neg, sin_neg, cos_PI2, sin_PI2.
    Rdec; lra.
  - destruct (Rtotal_order a (PI / 2)) as [H' | [H' | H']].
    + apply normalize_mid; lra.
    + subst a. unfold normalize, arctan2. rewrite cos_PI2, sin_PI2.
      Rdec; lra.
    + apply normalize_upper; lra.
Qed.

(** Unfold the numeric parameters down to literals. *)
Ltac unfold_params :=
  unfold spec_wrap_threshold, saw_start, saw_speed, saw_visual_size_z,
    saw_visual_thickness, dt_demo, DOMAIN_SIZE, FILM_LENGTH,
    MAX_ROTATION_TRIBO_DEG, MAX_ROTATION_STRAIN_DEG, TRIBO_ENHANCEMENT_FACTOR,
    RETENTION_TIME_TRIBO_S, RETENTION_TIME_STRAIN_S, base_nT, max_nT_strain,
    max_nT_tribo in *.

(** * The overlap test *)

Lemma saw_over_domain_true (p z : R) :
  saw_over_domain p z = true <->
  p - DOMAIN_SIZE / 2 < z + saw_visual_size_z / 2 /\
  p + DOMAIN_SIZE / 2 > z - saw_visual_size_z / 2.
Proof.
  unfold saw_over_domain. rewrite andb_true_iff, Rltb_true, Rgtb_true.
  reflexivity.
Qed.

(** C3, as stated, fails: with the SAW at -10.5 nm (its position in the
    first iteration after switching on) the domain at 12.5 nm passes the
    loop's test although it is 23 nm away, outside the closed interval of
    half a band width (12.5 nm) around the SAW position. *)
Lemma overlap_is_not_the_closed_band_interval :
  ~ (forall p z : R, saw_over_domain p z = true <-> spec_overlaps p z).
Proof.
  intros H. destruct (H 12.5e-9 (-10.5e-9)) as [H1 _].
  assert (Hov : saw_over_domain 12.5e-9 (-10.5e-9) = true).
  { apply saw_over_domain_true. unfold_params. lra. }
  apply H1 in Hov. unfold spec_overlaps in Hov. unfold_params. lra.
Qed.

(** C3, amended: the test is true iff the domain's coordinate lies in the
    open interval around the SAW position whose half-width is half the
    band width plus half the domain pitch, i.e. iff the domain's extent
    and the band's extent properly intersect. *)
Theorem overlap_iff_extents_intersect (p z : R) :
  saw_over_domain p z = true <->
  z - (saw_visual_size_z / 2 + DOMAIN_SIZE / 2) < p
  < z + (saw_visual_size_z / 2 + DOMAIN_SIZE / 2).
Proof. rewrite saw_over_domain_true. lra. Qed.

(** The interval of the specification is contained in the one tested. *)
Lemma spec_overlaps_sound (p z : R) :
  spec_overlaps p z -> saw_over_domain p z = true.
Proof.
  unfold spec_overlaps. intros H. apply saw_over_domain_true.
  unfold_params. lra.
Qed.

(** * The trigger *)

Lemma tribo_magnitude : MAX_ROTATION_TRIBO_DEG = 21.
Proof. unfold_params. lra. Qed.

Lemma interact_triggers (tribo : bool) (z p : R) (st : domain_state) :
  saw_over_domain p z = true -> is_flipped st = false ->
  interact tribo z p st = trigger tribo st.
Proof. intros Hov Hf. unfold interact. now rewrite Hov, Hf. Qed.

(** C4: what the AtRest-to-Holding transition writes.  The rotation is
    by 15 degrees, or by 1.4 * 15 = 21 degrees with the boost, subtracted
    when [cos original >= 0] and added otherwise; the target is
    normalised into (-PI, PI]; [max_rotation_rad] is the new target; the
    retention timer is 2.0 s, or 6.0 s with the boost, and 6.0 > 2.0. *)
Theorem trigger_transition (tribo : bool) (z p : R) (st : domain_state) :
  saw_over_domain p z = true ->
  tag_of st = AtRest ->
  let st' := interact tribo z p st in
  let magnitude_deg := if tribo then 21 else 15 in
  tag_of st' = Holding /\
  (cos (original_angle_rad st) >= 0 ->
     target_angle_rad st'
     = normalize (original_angle_rad st - radians magnitude_deg)) /\
  (cos (original_angle_rad st) < 0 ->
     target_angle_rad st'
     = normalize (original_angle_rad st + radians magnitude_deg)) /\
  MAX_ROTATION_TRIBO_DEG = 1.4 * MAX_ROTATION_STRAIN_DEG /\
  MAX_ROTATION_STRAIN_DEG = 15 /\ MAX_ROTATION_TRIBO_DEG = 21 /\
  in_range (target_angle_rad st') /\
  max_rotation_rad st' = target_angle_rad st' /\
  retention_timer st' = (if tribo then 6.0 else 2.0) /\
  RETENTION_TIME_TRIBO_S > RETENTION_TIME_STRAIN_S /\
  current_angle_rad st' = current_angle_rad st /\
  original_angle_rad st' = original_angle_rad st.
Proof.
  intros Hov Htag st' mag.
  assert (Hf : is_flipped st = false).
  { unfold tag_of in Htag. destruct (is_flipped st); [| reflexivity].
    destruct (Rgtb (retention_timer st) 0); discriminate. }
  subst st'. rewrite (interact_triggers tribo z p st Hov Hf).
  assert (Hmag : (if tribo then MAX_ROTATION_TRIBO_DEG
                  else MAX_ROTATION_STRAIN_DEG) = mag).
  { subst mag. destruct tribo; [apply tribo_magnitude | reflexivity]. }
  unfold trigger. rewrite Hmag. cbn [target_angle_rad max_rotation_rad
    retention_timer current_angle_rad original_angle_rad].
  repeat apply conj.
  - unfold tag_of. cbn [is_flipped retention_timer].
    assert (Ht : Rgtb (if tribo then RETENTION_TIME_TRIBO_S
                       else RETENTION_TIME_STRAIN_S) 0 = true).
    { destruct tribo; unfold_params; Rtrue. }
    now rewrite Ht.
  - intros Hc. apply Rgeb_true in Hc. now rewrite Hc.
  - intros Hc. apply Rgeb_false in Hc. now rewrite Hc.
  - unfold_params. lra.
  - reflexivity.
  - apply tribo_magnitude.
  - apply normalize_in_range.
  - apply normalize_in_range.
  - reflexivity.
  - destruct tribo; unfold_params; lra.
  - unfold_params. lra.
  - reflexivity.
  - reflexivity.
Qed.

Lemma cos_0_nonneg : cos 0 >= 0.
Proof. rewrite cos_0. lra. Qed.

Lemma radians_in_range (d : R) : -180 < d <= 180 -> in_range (radians d).
Proof.
  intros H. unfold in_range, radians. pose proof PI_pos. nra.
Qed.

(** The two scenarios of the specification, for a domain at rest at
    angle 0 under the band: -15 degrees and 2.0 s, -21 degrees and 6.0 s. *)
Example trigger_plain_scenario :
  trigger false (new_state 0)
  = mkState 0 (radians (-15)) 2.0 0 true (radians (-15)).
Proof.
  unfold trigger, new_state.
  cbn [original_angle_rad current_angle_rad].
  assert (Hc : Rgeb (cos 0) 0 = true) by (apply Rgeb_true, cos_0_nonneg).
  rewrite Hc.
  replace (0 - radians MAX_ROTATION_STRAIN_DEG) with (radians (-15))
    by (unfold radians; unfold_params; lra).
  rewrite normalize_id by (apply radians_in_range; lra).
  reflexivity.
Qed.

Lemma trigger_transition_witness :
  tag_of (interact true (-10.5e-9) 12.5e-9 (new_state 0)) = Holding /\
  target_angle_rad (interact true (-10.5e-9) 12.5e-9 (new_state 0))
  = radians (-21) /\
  retention_timer (interact true (-10.5e-9) 12.5e-9 (new_state 0)) = 6.0.
Proof.
  assert (Hov : saw_over_domain 12.5e-9 (-10.5e-9) = true).
  { apply saw_over_domain_true. unfold_params. lra. }
  assert (Htag : tag_of (new_state 0) = AtRest) by reflexivity.
  destruct (trigger_transition true (-10.5e-9) 12.5e-9 (new_state 0) Hov Htag)
    as (H1 & H2 & _ & _ & _ & _ & _ & _ & H3 & _).
  split; [exact H1 |]. split; [| exact H3].
  rewrite (H2 cos_0_nonneg).
  change (original_angle_rad (new_state 0)) with 0.
  replace (0 - radians 21) with (radians (-21)) by (unfold radians; lra).
  apply normalize_id, radians_in_range. lra.
Defined.

(** * Lists of domains *)

Lemma map_states_compose (f g : R -> domain_state -> domain_state)
    (ds : list R) (sts : list domain_state) :
  map_states f ds (map_states g ds sts)
  = map_states (fun p s => f p (g p s)) ds sts.
Proof.
  unfold map_states. revert sts.
  induction ds as [| d ds IH]; intros [| s sts]; cbn; try reflexivity.
  now rewrite IH.
Qed.

Lemma map_states_length (f : R -> domain_state -> domain_state)
    (ds : list R) (sts : list domain_state) :
  length ds = length sts -> length (map_states f ds sts) = length sts.
Proof.
  intros H. unfold map_states.
  rewrite length_map, length_combine. lia.
Qed.

Lemma map_states_nth (f : R -> domain_state -> domain_state)
    (ds : list R) (sts : list domain_state) (c : nat) (p : R)
    (st : domain_state) :
  nth_error ds c = Some p -> nth_error sts c = Some st ->
  nth_error (map_states f ds sts) c = Some (f p st).
Proof.
  unfold map_states. revert sts c.
  induction ds as [| d ds IH]; intros [| s sts] [| c]; cbn;
    try discriminate.
  - intros [= ->] [= ->]. reflexivity.
  - apply IH.
Qed.

Lemma map_states_nth_inv (f : R -> domain_state -> domain_state)
    (ds : list R) (sts : list domain_state) (c : nat) (st' : domain_state) :
  nth_error (map_states f ds sts) c = Some st' ->
  exists p st,
    nth_error ds c = Some p /\ nth_error sts c = Some st /\ st' = f p st.
Proof.
  unfold map_states. revert sts c.
  induction ds as [| d ds IH]; intros [| s sts] [| c]; cbn;
    try discriminate.
  - intros [= <-]. now exists d, s.
  - apply IH.
Qed.

Lemma map_states_Forall (P : domain_state -> Prop)
    (f : R -> domain_state -> domain_state)
    (ds : list R) (sts : list domain_state) :
  (forall p st, P st -> P (f p st)) ->
  Forall P sts -> Forall P (map_states f ds sts).
Proof.
  intros Hf Hall. unfold map_states. revert ds.
  induction Hall as [| s sts Hs Hall IH]; intros [| d ds]; cbn;
    constructor; auto.
Qed.

(** One loop iteration acts on every domain by [cell_tick], with the
    SAW at its advanced position. *)
Lemma tick_cells (dt : R) (w : world) :
  domain_states (tick dt w)
  = map_states (cell_tick dt (saw_on w) (tribo_on w) (advanced dt w))
               (domains w) (domain_states w).
Proof.
  unfold tick, cell_tick. destruct (saw_on w); cbn [domain_states].
  - apply map_states_compose.
  - reflexivity.
Qed.

Lemma tick_domains (dt : R) (w : world) : domains (tick dt w) = domains w.
Proof. unfold tick. now destruct (saw_on w). Qed.

Lemma tick_saw_on (dt : R) (w : world) : saw_on (tick dt w) = saw_on w.
Proof. unfold tick. now destruct (saw_on w). Qed.

Lemma tick_tribo_on (dt : R) (w : world) : tribo_on (tick dt w) = tribo_on w.
Proof. unfold tick. now destruct (saw_on w). Qed.

Lemma tick_y_pos (dt : R) (w : world) :
  saw_visual_y_pos (tick dt w)
  = if saw_on w then wrap (advanced dt w) else saw_visual_y_pos w.
Proof. unfold tick. now destruct (saw_on w). Qed.

Lemma tick_pos_z (dt : R) (w : world) :
  saw_visual_pos_z (tick dt w)
  = if saw_on w then advanced dt w else saw_visual_pos_z w.
Proof. unfold tick. now destruct (saw_on w). Qed.

Lemma run_app (evs1 evs2 : list event) (w : world) :
  run (evs1 ++ evs2) w = run evs2 (run evs1 w).
Proof. unfold run. apply fold_left_app. Qed.

Lemma run_cons (e : event) (evs : list event) (w : world) :
  run (e :: evs) w = run evs (step e w).
Proof. reflexivity. Qed.

Lemma reachable_run (rnd : nat -> nat -> R) (evs : list event) (w : world) :
  reachable rnd w -> reachable rnd (run evs w).
Proof.
  revert w. induction evs as [| e evs IH]; intros w Hw; [exact Hw |].
  rewrite run_cons. apply IH. now constructor.
Qed.

(** While the SAW button is not clicked, [saw_on] keeps its value. *)
Lemma run_saw_on (evs : list event) (w : world) :
  ~ In ToggleSaw evs -> saw_on (run evs w) = saw_on w.
Proof.
  revert w. induction evs as [| e evs IH]; intros w Hno; [reflexivity |].
  rewrite run_cons, IH by (intros Hin; apply Hno; now right).
  destruct e; cbn [step].
  - apply tick_saw_on.
  - exfalso. apply Hno. now left.
  - reflexivity.
Qed.

(** With the SAW off nothing moves [saw_visual_y_pos]. *)
Lemma run_off_y_pos (evs : list event) (w : world) :
  ~ In ToggleSaw evs -> saw_on w = false ->
  saw_visual_y_pos (run evs w) = saw_visual_y_pos w.
Proof.
  revert w. induction evs as [| e evs IH]; intros w Hno Hoff; [reflexivity |].
  assert (Hno' : ~ In ToggleSaw evs) by (intros Hin; apply Hno; now right).
  rewrite run_cons. destruct e; cbn [step].
  - rewrite IH by (try rewrite tick_saw_on; assumption).
    rewrite tick_y_pos. now rewrite Hoff.
  - exfalso. apply Hno. now left.
  - rewrite IH by assumption. reflexivity.
Qed.

Lemma wrap_below (y : R) :
  y <= FILM_LENGTH + saw_visual_thickness / 2 -> wrap y = y.
Proof.
  intros H. unfold wrap.
  assert (E : Rgtb y (FILM_LENGTH + saw_visual_thickness / 2) = false)
    by now apply Rgtb_false.
  now rewrite E.
Qed.

Lemma wrap_above (y : R) :
  y > FILM_LENGTH + saw_visual_thickness / 2 -> wrap y = saw_start.
Proof.
  intros H. unfold wrap.
  assert (E : Rgtb y (FILM_LENGTH + saw_visual_thickness / 2) = true)
    by now apply Rgtb_true.
  now rewrite E.
Qed.

Lemma wrap_bounded (y : R) :
  wrap y <= FILM_LENGTH + saw_visual_thickness / 2.
Proof.
  destruct (Rle_dec y (FILM_LENGTH + saw_visual_thickness / 2)) as [H | H].
  - now rewrite wrap_below.
  - rewrite wrap_above by lra. unfold_params. lra.
Qed.

(** With the SAW on, [n] iterations that stay on the film advance the
    position by [n] steps. *)
Lemma y_pos_after_ticks (n : nat) (dt : R) (w : world) :
  saw_on w = true -> 0 <= saw_speed * dt ->
  saw_visual_y_pos w + INR n * (saw_speed * dt)
  <= FILM_LENGTH + saw_visual_thickness / 2 ->
  saw_visual_y_pos (run (repeat (Tick dt) n) w)
  = saw_visual_y_pos w + INR n * (saw_speed * dt).
Proof.
  intros Hon Hstep. revert w Hon.
  induction n as [| n IH]; intros w Hon Hle.
  - cbn. lra.
  - rewrite S_INR in *. pose proof (pos_INR n) as Hn.
    cbn [repeat]. rewrite run_cons. cbn [step].
    assert (Hy : saw_visual_y_pos (tick dt w) = advanced dt w).
    { rewrite tick_y_pos, Hon. apply wrap_below. unfold advanced. nra. }
    rewrite IH.
    + rewrite Hy. unfold advanced. lra.
    + now rewrite tick_saw_on.
    + rewrite Hy. unfold advanced. lra.
Qed.

(** * The SAW position *)

(** The program's state after the SAW button is clicked and the loop
    has run 512 times: the SAW is at 1011.5 nm. *)
Lemma y_pos_after_512 :
  saw_visual_y_pos (run (repeat (Tick dt_demo) 512) started_world)
  = 1011.5e-9.
Proof.
  rewrite y_pos_after_ticks.
  - rewrite INR_IZR_INZ. cbn. unfold_params. lra.
  - reflexivity.
  - unfold_params. lra.
  - rewrite INR_IZR_INZ. cbn. unfold_params. lra.
Qed.

(** * Switching the SAW off and on *)

(** C10: after the SAW is switched off (from [w], where it was on) and,
    any iterations and boost clicks later, switched on again, the loop
    variable still holds the position it had in [w].  The click resets
    only [saw_visual.pos.z]; the next iteration overwrites it with the
    advanced loop variable before it tests any domain, so every domain
    is tested against the resumed position. *)
Theorem saw_resumes_where_it_stopped
    (w : world) (evs : list event) (dt : R) :
  saw_on w = true -> ~ In ToggleSaw evs ->
  let w_on := toggle_saw (run evs (toggle_saw w)) in
  saw_on w_on = true /\
  saw_visual_y_pos w_on = saw_visual_y_pos w /\
  saw_visual_pos_z w_on = saw_start /\
  saw_visual_pos_z (tick dt w_on) = saw_visual_y_pos w + saw_speed * dt /\
  saw_visual_y_pos (tick dt w_on) = wrap (saw_visual_y_pos w + saw_speed * dt) /\
  domain_states (tick dt w_on)
  = map_states
      (cell_tick dt true (tribo_on w_on) (saw_visual_y_pos w + saw_speed * dt))
      (domains w_on) (domain_states w_on).
Proof.
  intros Hon Hno w_on.
  assert (Hoff : saw_on (run evs (toggle_saw w)) = false).
  { rewrite run_saw_on by assumption. cbn. now rewrite Hon. }
  assert (Hon' : saw_on w_on = true).
  { unfold w_on. cbn [toggle_saw saw_on]. now rewrite Hoff. }
  assert (Hy : saw_visual_y_pos w_on = saw_visual_y_pos w).
  { unfold w_on. cbn [toggle_saw saw_visual_y_pos].
    rewrite run_off_y_pos; [reflexivity | assumption |].
    cbn. now rewrite Hon. }
  assert (Hadv : advanced dt w_on = saw_visual_y_pos w + saw_speed * dt).
  { unfold advanced. now rewrite Hy. }
  repeat apply conj.
  - exact Hon'.
  - exact Hy.
  - unfold w_on. cbn [toggle_saw saw_visual_pos_z]. rewrite Hoff.
    reflexivity.
  - now rewrite tick_pos_z, Hon'.
  - now rewrite tick_y_pos, Hon', Hadv.
  - now rewrite tick_cells, Hon', Hadv.
Qed.

Lemma saw_resumes_where_it_stopped_witness :
  saw_visual_y_pos
    (toggle_saw (run [Tick dt_demo]
       (toggle_saw started_world)))
  = saw_visual_y_pos started_world.
Proof.
  apply (saw_resumes_where_it_stopped
           started_world [Tick dt_demo] dt_demo).
  - reflexivity.
  - intros [H | []]; discriminate.
Defined.

(** * One domain, one iteration *)

Lemma tag_at_rest (st : domain_state) :
  tag_of st = AtRest <-> is_flipped st = false.
Proof.
  unfold tag_of. destruct (is_flipped st).
  - destruct (Rgtb (retention_timer st) 0); split; discriminate.
  - split; reflexivity.
Qed.

Lemma tag_holding (st : domain_state) :
  tag_of st = Holding <-> is_flipped st = true /\ retention_timer st > 0.
Proof.
  unfold tag_of. destruct (is_flipped st).
  - Rcase (Rgtb (retention_timer st) 0) H; split; try discriminate; try tauto.
    intros [_ H']. lra.
  - split; [discriminate | intros [H _]; discriminate].
Qed.

Lemma tag_relaxing (st : domain_state) :
  tag_of st = Relaxing <-> is_flipped st = true /\ retention_timer st <= 0.
Proof.
  unfold tag_of. destruct (is_flipped st).
  - Rcase (Rgtb (retention_timer st) 0) H; split; try discriminate; try tauto.
    intros [_ H']. lra.
  - split; [discriminate | intros [H _]; discriminate].
Qed.

Lemma not_at_rest (st : domain_state) :
  tag_of st <> AtRest <-> is_flipped st = true.
Proof.
  rewrite tag_at_rest. destruct (is_flipped st); split; congruence.
Qed.

(** A domain that is not flipped is left alone by the rotation and
    retention code. *)
Lemma update_domain_at_rest (dt : R) (st : domain_state) :
  is_flipped st = false -> update_domain dt st = st.
Proof.
  intros Hf. unfold update_domain, rotate_to_target. rewrite Hf. cbn [andb].
  unfold retain_or_relax. now rewrite Hf.
Qed.

(** A flipped domain is left alone by the trigger code. *)
Lemma interact_flipped (tribo : bool) (z p : R) (st : domain_state) :
  is_flipped st = true -> interact tribo z p st = st.
Proof.
  intros Hf. unfold interact. rewrite Hf. cbn [negb].
  now destruct (saw_over_domain p z).
Qed.

Lemma interact_no_overlap (tribo : bool) (z p : R) (st : domain_state) :
  saw_over_domain p z = false -> interact tribo z p st = st.
Proof. intros H. unfold interact. now rewrite H. Qed.

Lemma cell_tick_flipped (dt : R) (on tribo : bool) (z p : R)
    (st : domain_state) :
  is_flipped st = true -> cell_tick dt on tribo z p st = update_domain dt st.
Proof.
  intros Hf. unfold cell_tick. destruct on; [| reflexivity].
  now rewrite interact_flipped.
Qed.

Lemma tick_nth (dt : R) (w : world) (c : nat) (p : R) (st : domain_state) :
  nth_error (domains w) c = Some p ->
  nth_error (domain_states w) c = Some st ->
  nth_error (domain_states (tick dt w)) c
  = Some (cell_tick dt (saw_on w) (tribo_on w) (advanced dt w) p st).
Proof. intros Hp Hst. rewrite tick_cells. now apply map_states_nth. Qed.

(** * Aggregate metrics *)

Lemma accumulate_sum_nonneg (acc : R * nat) (st : domain_state) :
  0 <= fst acc -> 0 <= fst (accumulate acc st).
Proof.
  intros Hacc. unfold accumulate. destruct (is_flipped st); [| exact Hacc].
  Rcase (Rgtb (Rabs (max_rotation_rad st - original_angle_rad st)) (radians 1))
        Hmp; [| exact Hacc].
  cbn [fst].
  assert (Hpos : 0 < Rabs (max_rotation_rad st - original_angle_rad st)).
  { unfold radians in Hmp. pose proof PI_pos. lra. }
  pose proof (Rabs_pos (current_angle_rad st - original_angle_rad st)) as Hd.
  assert (0 <= Rabs (current_angle_rad st - original_angle_rad st)
               / Rabs (max_rotation_rad st - original_angle_rad st)).
  { apply Rmult_le_pos; [exact Hd |]. left. now apply Rinv_0_lt_compat. }
  lra.
Qed.

Lemma fold_accumulate_sum_nonneg (sts : list domain_state) (acc : R * nat) :
  0 <= fst acc -> 0 <= fst (fold_left accumulate sts acc).
Proof.
  revert acc. induction sts as [| st sts IH]; intros acc Hacc; [exact Hacc |].
  cbn [fold_left]. apply IH. now apply accumulate_sum_nonneg.
Qed.

Lemma accumulate_undisplaced (acc : R * nat) (st : domain_state) :
  undisplaced st -> fst (accumulate acc st) = fst acc.
Proof.
  intros Hu. unfold accumulate.
  destruct (is_flipped st) eqn:Hf; [| reflexivity].
  destruct Hu as [Hu | Hu]; [congruence |].
  destruct (Rgtb _ _); [| reflexivity].
  cbn [fst]. rewrite Hu.
  replace (original_angle_rad st - original_angle_rad st) with 0 by lra.
  rewrite Rabs_R0. unfold Rdiv. lra.
Qed.

Lemma fold_accumulate_undisplaced (sts : list domain_state) (acc : R * nat) :
  Forall undisplaced sts -> fst (fold_left accumulate sts acc) = fst acc.
Proof.
  intros Hall. revert acc.
  induction Hall as [| st sts Hst Hall IH]; intros acc; [reflexivity |].
  cbn [fold_left]. rewrite IH. now apply accumulate_undisplaced.
Qed.

Lemma avg_rotation_perc_nonneg (sts : list domain_state) :
  0 <= avg_rotation_perc sts.
Proof.
  unfold avg_rotation_perc.
  pose proof (fold_accumulate_sum_nonneg sts (0, 0%nat) (Rle_refl 0)) as Hs.
  destruct (Nat.ltb 0 (snd (fold_left accumulate sts (0, 0%nat)))) eqn:Hact;
    [| lra].
  apply Nat.ltb_lt in Hact. apply lt_0_INR in Hact.
  apply Rmult_le_pos; [exact Hs |]. left. now apply Rinv_0_lt_compat.
Qed.

Lemma avg_rotation_perc_undisplaced (sts : list domain_state) :
  Forall undisplaced sts -> avg_rotation_perc sts = 0.
Proof.
  intros Hall. unfold avg_rotation_perc.
  rewrite (fold_accumulate_undisplaced sts (0, 0%nat) Hall). cbn [fst].
  destruct (0 <? _)%nat; [| reflexivity]. unfold Rdiv. lra.
Qed.

Lemma base_le_current_max (tribo : bool) : base_nT <= current_max_nT tribo.
Proof. destruct tribo; cbn; unfold_params; lra. Qed.

(** * Normalisation modulo a full turn *)

Lemma sin_cos_period_nat (x : R) (n : nat) :
  sin (x + INR n * (2 * PI)) = sin x /\ cos (x + INR n * (2 * PI)) = cos x.
Proof.
  replace (INR n * (2 * PI)) with (2 * INR n * PI) by ring.
  split; [apply sin_period | apply cos_period].
Qed.

Lemma sin_cos_period_Z (x : R) (k : Z) :
  sin (x + IZR k * (2 * PI)) = sin x /\ cos (x + IZR k * (2 * PI)) = cos x.
Proof.
  destruct k as [| p | p].
  - replace (x + 0 * (2 * PI)) with x by ring. now split.
  - rewrite <- positive_nat_Z, <- INR_IZR_INZ. apply sin_cos_period_nat.
  - change (Z.neg p) with (Z.opp (Z.pos p)).
    rewrite opp_IZR, <- positive_nat_Z, <- INR_IZR_INZ.
    set (n := Pos.to_nat p).
    destruct (sin_cos_period_nat (x + - INR n * (2 * PI)) n) as [Hs Hc].
    replace (x + - INR n * (2 * PI) + INR n * (2 * PI)) with x in Hs, Hc
      by ring.
    now split.
Qed.

Lemma normalize_period (x : R) (k : Z) :
  normalize (x + IZR k * (2 * PI)) = normalize x.
Proof.
  unfold normalize. destruct (sin_cos_period_Z x k) as [Hs Hc].
  now rewrite Hs, Hc.
Qed.

(** Every angle has a representative in (-PI, PI]. *)
Lemma representative_exists (x : R) :
  exists k : Z, in_range (x + IZR k * (2 * PI)).
Proof.
  pose proof PI_pos as HPI.
  set (y := x / (2 * PI) + 1 / 2).
  destruct (archimed (- y)) as [Hup Hlow].
  exists (up (- y)). unfold in_range.
  assert (Hx : x = (y - 1 / 2) * (2 * PI)) by (unfold y; field; lra).
  rewrite Hx. split; nra.
Qed.

(** [normalize] picks that representative. *)
Lemma normalize_spec (x : R) :
  exists k : Z, normalize x = x + IZR k * (2 * PI).
Proof.
  destruct (representative_exists x) as [k Hk]. exists k.
  rewrite <- (normalize_period x k). now apply normalize_id.
Qed.

Lemma normalize_unique (x a : R) (k : Z) :
  in_range a -> a = x + IZR k * (2 * PI) -> normalize x = a.
Proof.
  intros Ha Heq. rewrite <- (normalize_period x k), <- Heq.
  now apply normalize_id.
Qed.

(** Equal angles up to full turns normalise to the same value. *)
Lemma normalize_congr (x y : R) (k : Z) :
  y = x + IZR k * (2 * PI) -> normalize y = normalize x.
Proof. intros ->. apply normalize_period. Qed.

(** After a step by the fraction [f] of the shortest-path residual
    towards [goal], the shortest-path residual is [(1 - f)] of what it
    was. *)
Lemma residual_after_step (cur goal f : R) :
  0 <= f <= 1 ->
  normalize (goal - normalize (cur + normalize (goal - cur) * f))
  = (1 - f) * normalize (goal - cur).
Proof.
  intros Hf. set (r := normalize (goal - cur)).
  destruct (normalize_spec (goal - cur)) as [k Hk]. fold r in Hk.
  destruct (normalize_spec (cur + r * f)) as [m Hm].
  assert (Hr : in_range r) by apply normalize_in_range.
  apply (normalize_unique _ _ (k + m)%Z).
  - unfold in_range in *. pose proof PI_pos. nra.
  - rewrite Hm, plus_IZR. rewrite Hk. ring.
Qed.

(** Two successive steps, by [f] and then by [g] of the residual, land
    where one step by [f + g * (1 - f)] lands. *)
Lemma two_steps (cur goal f g : R) :
  0 <= f <= 1 ->
  let c1 := normalize (cur + normalize (goal - cur) * f) in
  normalize (c1 + normalize (goal - c1) * g)
  = normalize (cur + (f + g * (1 - f)) * normalize (goal - cur)).
Proof.
  intros Hf c1. unfold c1 at 2. rewrite residual_after_step by exact Hf.
  destruct (normalize_spec (cur + normalize (goal - cur) * f)) as [m Hm].
  fold c1 in Hm.
  apply (normalize_congr _ _ m). rewrite Hm. ring.
Qed.

(** * The rotation and retention code on a flipped domain *)

Lemma rotate_far (st : domain_state) :
  is_flipped st = true ->
  Rabs (current_angle_rad st - target_angle_rad st) > radians 0.5 ->
  rotate_to_target st
  = mkState
      (normalize (current_angle_rad st
                  + normalize (target_angle_rad st - current_angle_rad st)
                    * 0.2))
      (target_angle_rad st) (retention_timer st) (original_angle_rad st)
      true (max_rotation_rad st).
Proof.
  intros Hf Hfar. unfold rotate_to_target. rewrite Hf.
  apply Rgtb_true in Hfar. rewrite Hfar. reflexivity.
Qed.

Lemma rotate_near (st : domain_state) :
  Rabs (current_angle_rad st - target_angle_rad st) <= radians 0.5 ->
  rotate_to_target st = st.
Proof.
  intros Hnear. unfold rotate_to_target.
  apply Rgtb_false in Hnear. rewrite Hnear. now rewrite andb_false_r.
Qed.

(** The rotation step touches [current_angle_rad] only. *)
Lemma rotate_frame (st : domain_state) :
  target_angle_rad (rotate_to_target st) = target_angle_rad st /\
  retention_timer (rotate_to_target st) = retention_timer st /\
  original_angle_rad (rotate_to_target st) = original_angle_rad st /\
  is_flipped (rotate_to_target st) = is_flipped st /\
  max_rotation_rad (rotate_to_target st) = max_rotation_rad st.
Proof.
  unfold rotate_to_target. destruct (_ && _); cbn; auto.
Qed.

Lemma relax_far (dt : R) (st : domain_state) :
  is_flipped st = true -> retention_timer st <= 0 ->
  Rabs (current_angle_rad st - original_angle_rad st) > radians 0.5 ->
  retain_or_relax dt st
  = mkState
      (normalize (current_angle_rad st
                  + normalize (original_angle_rad st - current_angle_rad st)
                    * 0.05))
      (target_angle_rad st) (retention_timer st) (original_angle_rad st)
      true (max_rotation_rad st).
Proof.
  intros Hf Ht Hfar. unfold retain_or_relax. rewrite Hf. cbn [andb].
  assert (E1 : Rgtb (retention_timer st) 0 = false) by now apply Rgtb_false.
  assert (E2 : Rleb (retention_timer st) 0 = true) by now apply Rleb_true.
  apply Rgtb_true in Hfar. rewrite E1, E2, Hfar. reflexivity.
Qed.

Lemma relax_near (dt : R) (st : domain_state) :
  is_flipped st = true -> retention_timer st <= 0 ->
  Rabs (current_angle_rad st - original_angle_rad st) <= radians 0.5 ->
  retain_or_relax dt st
  = mkState (original_angle_rad st) (target_angle_rad st)
      (retention_timer st) (original_angle_rad st) false 0.0.
Proof.
  intros Hf Ht Hnear. unfold retain_or_relax. rewrite Hf. cbn [andb].
  assert (E1 : Rgtb (retention_timer st) 0 = false) by now apply Rgtb_false.
  assert (E2 : Rleb (retention_timer st) 0 = true) by now apply Rleb_true.
  apply Rgtb_false in Hnear. rewrite E1, E2, Hnear. reflexivity.
Qed.

Lemma retain_counting (dt : R) (st : domain_state) :
  is_flipped st = true -> retention_timer st > 0 ->
  retention_timer st - dt > 0 ->
  retain_or_relax dt st
  = mkState (current_angle_rad st) (target_angle_rad st)
      (retention_timer st - dt) (original_angle_rad st) true
      (max_rotation_rad st).
Proof.
  intros Hf Ht Hleft. unfold retain_or_relax. rewrite Hf. cbn [andb].
  assert (E1 : Rgtb (retention_timer st) 0 = true) by now apply Rgtb_true.
  assert (E2 : Rleb (retention_timer st - dt) 0 = false)
    by (apply Rleb_false; lra).
  rewrite E1, E2. reflexivity.
Qed.

Lemma retain_expiring (dt : R) (st : domain_state) :
  is_flipped st = true -> retention_timer st > 0 ->
  retention_timer st - dt <= 0 ->
  retain_or_relax dt st
  = mkState (current_angle_rad st) (original_angle_rad st) 0
      (original_angle_rad st) true (max_rotation_rad st).
Proof.
  intros Hf Ht Hleft. unfold retain_or_relax. rewrite Hf. cbn [andb].
  assert (E1 : Rgtb (retention_timer st) 0 = true) by now apply Rgtb_true.
  assert (E2 : Rleb (retention_timer st - dt) 0 = true) by now apply Rleb_true.
  rewrite E1, E2. reflexivity.
Qed.

(** A Relaxing domain away from its original angle takes BOTH steps in
    one iteration: the 20% step towards the target, which is the
    original angle by then, and the 5% step of what is left. *)
Lemma update_relaxing_far (dt : R) (st : domain_state) :
  is_flipped st = true -> retention_timer st <= 0 ->
  target_angle_rad st = original_angle_rad st ->
  Rabs (current_angle_rad st - original_angle_rad st) > radians 0.5 ->
  Rabs (normalize (current_angle_rad st
                   + normalize (original_angle_rad st - current_angle_rad st)
                     * 0.2)
        - original_angle_rad st) > radians 0.5 ->
  update_domain dt st
  = mkState
      (normalize (current_angle_rad st
                  + 0.24 * normalize (original_angle_rad st
                                      - current_angle_rad st)))
      (target_angle_rad st) (retention_timer st) (original_angle_rad st)
      true (max_rotation_rad st).
Proof.
  intros Hf Ht Htgt Hfar Hfar1. unfold update_domain.
  rewrite rotate_far by (try rewrite Htgt; assumption).
  rewrite Htgt. rewrite relax_far; cbn; try assumption; try reflexivity.
  f_equal. rewrite two_steps by lra. f_equal. lra.
Qed.

Lemma update_relaxing_near (dt : R) (st : domain_state) :
  is_flipped st = true -> retention_timer st <= 0 ->
  target_angle_rad st = original_angle_rad st ->
  Rabs (current_angle_rad st - original_angle_rad st) > radians 0.5 ->
  Rabs (normalize (current_angle_rad st
                   + normalize (original_angle_rad st - current_angle_rad st)
                     * 0.2)
        - original_angle_rad st) <= radians 0.5 ->
  update_domain dt st
  = mkState (original_angle_rad st) (target_angle_rad st)
      (retention_timer st) (original_angle_rad st) false 0.0.
Proof.
  intros Hf Ht Htgt Hfar Hnear1. unfold update_domain.
  rewrite rotate_far by (try rewrite Htgt; assumption).
  rewrite Htgt. rewrite relax_near; cbn; try assumption; reflexivity.
Qed.

(** ** Angles given in degrees *)

Lemma normalize_radians (d : R) :
  -180 < d <= 180 -> normalize (radians d) = radians d.
Proof. intros H. now apply normalize_id, radians_in_range. Qed.

Lemma radians_lt (a b : R) : a < b -> radians a < radians b.
Proof. intros H. unfold radians. pose proof PI_pos. nra. Qed.

Lemma Rabs_radians (d : R) : Rabs (radians d) = radians (Rabs d).
Proof.
  unfold radians. rewrite Rabs_mult.
  rewrite (Rabs_pos_eq (PI / 180)); [reflexivity |].
  pose proof PI_pos. lra.
Qed.

(** One iteration on [relaxing_at a], for [a] more than 0.625 degrees
    and at most 90 degrees away from 0: the domain ends 24% closer. *)
Lemma update_relaxing_at_far (dt a : R) :
  0.625 < Rabs a <= 90 ->
  update_domain dt (relaxing_at a) = relaxing_at (0.76 * a).
Proof.
  intros Ha.
  assert (Hr : -90 <= a <= 90).
  { destruct Ha as [_ Ha]. unfold Rabs in Ha. destruct (Rcase_abs a); lra. }
  assert (Hn : normalize (0 - radians a) = radians (- a)).
  { replace (0 - radians a) with (radians (- a)) by (unfold radians; lra).
    apply normalize_radians. lra. }
  rewrite update_relaxing_far; unfold relaxing_at; cbn; try reflexivity.
  - rewrite Hn. f_equal.
    replace (radians a + 0.24 * radians (- a)) with (radians (0.76 * a))
      by (unfold radians; lra).
    apply normalize_radians. lra.
  - replace (radians a - 0) with (radians a) by lra.
    rewrite Rabs_radians. apply radians_lt. lra.
  - rewrite Hn.
    replace (radians a + radians (- a) * 0.2) with (radians (0.8 * a))
      by (unfold radians; lra).
    rewrite normalize_radians by lra.
    replace (radians (0.8 * a) - 0) with (radians (0.8 * a)) by lra.
    rewrite Rabs_radians. apply radians_lt.
    rewrite Rabs_mult, (Rabs_pos_eq 0.8); lra.
Qed.

(** C1, as stated, fails: a Relaxing domain 15 degrees below its
    original angle 0 ends the iteration at -11.4 degrees (24% of the
    residual closer), not at the -14.25 degrees of a 5% step. *)
Lemma relaxing_step_is_not_5_percent :
  tag_of (relaxing_at (-15)) = Relaxing /\
  Rabs (current_angle_rad (relaxing_at (-15))
        - original_angle_rad (relaxing_at (-15))) > epsilon /\
  current_angle_rad (update_domain dt_demo (relaxing_at (-15)))
  = radians (-11.4) /\
  spec_relax_step (relaxing_at (-15)) = radians (-14.25) /\
  current_angle_rad (update_domain dt_demo (relaxing_at (-15)))
  <> spec_relax_step (relaxing_at (-15)).
Proof.
  assert (Hupd : current_angle_rad (update_domain dt_demo (relaxing_at (-15)))
                 = radians (-11.4)).
  { rewrite update_relaxing_at_far.
    - cbn. f_equal. lra.
    - rewrite Rabs_left; lra. }
  assert (Hspec : spec_relax_step (relaxing_at (-15)) = radians (-14.25)).
  { unfold spec_relax_step, relaxing_at. cbn.
    replace (0 - radians (-15)) with (radians 15) by (unfold radians; lra).
    rewrite normalize_radians by lra.
    replace (radians (-15) + radians 15 * 0.05) with (radians (-14.25))
      by (unfold radians; lra).
    apply normalize_radians. lra. }
  repeat apply conj.
  - apply tag_relaxing. cbn. split; [reflexivity | lra].
  - cbn. replace (radians (-15) - 0) with (radians (-15)) by lra.
    rewrite Rabs_radians. apply radians_lt. rewrite Rabs_left; lra.
  - exact Hupd.
  - exact Hspec.
  - rewrite Hupd, Hspec. intros Heq.
    pose proof (radians_lt (-14.25) (-11.4)). lra.
Qed.

(** C1, amended: a Relaxing domain (as every reachable one, with
    [target_angle_rad] already reset to the original angle) that is
    farther than 0.5 degrees from its original angle takes, in one
    iteration, the 20% step of the general rotation code and then, if it
    is still farther than 0.5 degrees away, the 5% step of the relaxing
    branch: together 24% of the shortest-path residual, whose remainder
    is 76% of what it was.  If the 20% step already brings it within 0.5
    degrees, it is put on the original angle and is at rest. *)
Theorem relaxing_tick_takes_both_steps (dt : R) (st : domain_state) :
  tag_of st = Relaxing ->
  target_angle_rad st = original_angle_rad st ->
  Rabs (current_angle_rad st - original_angle_rad st) > epsilon ->
  let r := normalize (original_angle_rad st - current_angle_rad st) in
  let c1 := normalize (current_angle_rad st + r * 0.2) in
  (Rabs (c1 - original_angle_rad st) > epsilon ->
     update_domain dt st
     = mkState (normalize (current_angle_rad st + 0.24 * r))
         (target_angle_rad st) (retention_timer st) (original_angle_rad st)
         true (max_rotation_rad st) /\
     normalize (original_angle_rad st
                - current_angle_rad (update_domain dt st)) = 0.76 * r) /\
  (Rabs (c1 - original_angle_rad st) <= epsilon ->
     update_domain dt st
     = mkState (original_angle_rad st) (target_angle_rad st)
         (retention_timer st) (original_angle_rad st) false 0).
Proof.
  intros Htag Htgt Hfar r c1.
  apply tag_relaxing in Htag. destruct Htag as [Hf Ht].
  split.
  - intros Hfar1.
    assert (Hupd := update_relaxing_far dt st Hf Ht Htgt Hfar Hfar1).
    split; [exact Hupd |].
    rewrite Hupd. cbn [current_angle_rad]. fold r.
    replace (0.24 * r) with (r * 0.24) by ring.
    unfold r. rewrite residual_after_step by lra. lra.
  - intros Hnear1.
    rewrite (update_relaxing_near dt st Hf Ht Htgt Hfar Hnear1).
    f_equal. lra.
Qed.

Lemma relaxing_tick_takes_both_steps_witness :
  normalize (0 - current_angle_rad (update_domain dt_demo (relaxing_at (-15))))
  = 0.76 * normalize (0 - radians (-15)).
Proof.
  assert (Htag : tag_of (relaxing_at (-15)) = Relaxing).
  { apply tag_relaxing. cbn. split; [reflexivity | lra]. }
  assert (Hfar : Rabs (radians (-15) - 0) > epsilon).
  { replace (radians (-15) - 0) with (radians (-15)) by lra.
    rewrite Rabs_radians. apply radians_lt. rewrite Rabs_left; lra. }
  assert (Hfar1 : Rabs (normalize (radians (-15)
                                   + normalize (0 - radians (-15)) * 0.2) - 0)
                  > epsilon).
  { replace (0 - radians (-15)) with (radians 15) by (unfold radians; lra).
    rewrite normalize_radians by lra.
    replace (radians (-15) + radians 15 * 0.2) with (radians (-12))
      by (unfold radians; lra).
    rewrite normalize_radians by lra.
    replace (radians (-12) - 0) with (radians (-12)) by lra.
    rewrite Rabs_radians. apply radians_lt. rewrite Rabs_left; lra. }
  exact (proj2 (proj1 (relaxing_tick_takes_both_steps dt_demo
                         (relaxing_at (-15)) Htag eq_refl Hfar) Hfar1)).
Defined.

(** * Invariants of the reachable states *)

Lemma new_state_inv (a : R) : in_range a -> cell_inv (new_state a).
Proof.
  intros Ha. unfold cell_inv, new_state, in_range in *. cbn.
  repeat apply conj; lra.
Qed.

(** Record the range of every normalised angle of the goal. *)
Ltac note_normalized :=
  repeat match goal with
    | |- context [normalize ?x] =>
        lazymatch goal with
        | _ : in_range (normalize x) |- _ => fail
        | _ => pose proof (normalize_in_range x)
        end
    end.

Ltac split_inv :=
  unfold cell_inv; cbn; note_normalized; unfold in_range in *;
  repeat apply conj; intros; repeat apply conj;
  try assumption; try reflexivity; try discriminate; try congruence; try lra.

Lemma trigger_inv (tribo : bool) (st : domain_state) :
  cell_inv st -> cell_inv (trigger tribo st).
Proof.
  intros (Hc & _ & Ho & _). unfold trigger.
  destruct tribo; split_inv; unfold_params; lra.
Qed.

Lemma interact_inv (tribo : bool) (z p : R) (st : domain_state) :
  cell_inv st -> cell_inv (interact tribo z p st).
Proof.
  intros H. unfold interact.
  destruct (saw_over_domain p z); [| exact H].
  destruct (negb (is_flipped st)); [| exact H].
  now apply trigger_inv.
Qed.

Lemma rotate_inv (st : domain_state) :
  cell_inv st -> cell_inv (rotate_to_target st).
Proof.
  intros H. unfold rotate_to_target.
  destruct (is_flipped st) eqn:Hf; [| exact H]. cbn [andb].
  destruct (Rgtb _ _); [| exact H].
  destruct H as (Hc & Htg & Ho & Ht & Hx & _).
  split_inv; auto.
Qed.

Lemma retain_or_relax_inv (dt : R) (st : domain_state) :
  cell_inv st -> cell_inv (retain_or_relax dt st).
Proof.
  intros H. pose proof H as (Hc & Htg & Ho & Ht & Hx & Hr).
  unfold retain_or_relax.
  destruct (is_flipped st) eqn:Hf; [| exact H]. cbn [andb].
  Rcase (Rgtb (retention_timer st) 0) Hpos.
  - Rcase (Rleb (retention_timer st - dt) 0) Hleft; split_inv.
  - Rcase (Rleb (retention_timer st) 0) Hexp; [| exact H].
    Rcase (Rgtb (Rabs (current_angle_rad st - original_angle_rad st))
                (radians 0.5)) Hfar; split_inv; auto.
Qed.

Lemma update_domain_inv (dt : R) (st : domain_state) :
  cell_inv st -> cell_inv (update_domain dt st).
Proof. intros H. now apply retain_or_relax_inv, rotate_inv. Qed.

Lemma cell_tick_inv (dt : R) (on tribo : bool) (z p : R) (st : domain_state) :
  cell_inv st -> cell_inv (cell_tick dt on tribo z p st).
Proof.
  intros H. unfold cell_tick. apply update_domain_inv.
  destruct on; [now apply interact_inv | exact H].
Qed.

Lemma initial_world_inv (rnd : nat -> nat -> R) :
  uniform_draws rnd -> world_inv (initial_world rnd).
Proof.
  intros Hrnd. unfold world_inv, initial_world. cbn [domains domain_states
    saw_visual_y_pos]. repeat apply conj.
  - unfold initial_domains, initial_domain_states.
    induction (seq 0 NUM_DOMAINS_X) as [| i l IH]; [reflexivity |].
    cbn [flat_map]. now rewrite !length_app, !length_map, IH.
  - unfold_params. lra.
  - unfold initial_domain_states. apply Forall_forall. intros st Hin.
    apply in_flat_map in Hin. destruct Hin as (i & _ & Hin).
    apply in_map_iff in Hin. destruct Hin as (j & <- & _).
    apply new_state_inv. unfold initial_angle. apply radians_in_range.
    unfold INITIAL_MAGNETIZATION_ANGLE_DEG. specialize (Hrnd i j). lra.
Qed.

Lemma tick_inv (dt : R) (w : world) : world_inv w -> world_inv (tick dt w).
Proof.
  intros (Hlen & Hy & Hall). unfold world_inv.
  rewrite tick_domains, tick_cells, tick_y_pos. repeat apply conj.
  - now rewrite map_states_length.
  - destruct (saw_on w); [apply wrap_bounded | exact Hy].
  - apply map_states_Forall; [| exact Hall].
    intros p st. apply cell_tick_inv.
Qed.

Lemma step_inv (e : event) (w : world) : world_inv w -> world_inv (step e w).
Proof.
  destruct e; cbn [step]; [apply tick_inv | |]; intros H; exact H.
Qed.

Lemma reachable_inv (rnd : nat -> nat -> R) (w : world) :
  uniform_draws rnd -> reachable rnd w -> world_inv w.
Proof.
  intros Hrnd Hw. induction Hw as [| e w _ IH].
  - now apply initial_world_inv.
  - now apply step_inv.
Qed.

(** C7: in every state reachable from the initial one by iterations
    (of any timestep) and clicks, [current_angle_rad] and
    [target_angle_rad] of every domain lie in (-PI, PI]. *)
Theorem angles_stay_normalized (rnd : nat -> nat -> R) (w : world) :
  uniform_draws rnd -> reachable rnd w ->
  Forall (fun st => in_range (current_angle_rad st)
                    /\ in_range (target_angle_rad st))
         (domain_states w).
Proof.
  intros Hrnd Hw.
  destruct (reachable_inv rnd w Hrnd Hw) as (_ & _ & Hall).
  eapply Forall_impl; [| exact Hall].
  intros st (Hc & Ht & _). now split.
Qed.

Lemma rnd0_uniform : uniform_draws rnd0.
Proof. intros i j. unfold rnd0. lra. Qed.

Lemma started_world_reachable : reachable rnd0 started_world.
Proof. apply (reach_step rnd0 ToggleSaw). constructor. Qed.

Lemma first_pass_world_reachable : reachable rnd0 first_pass_world.
Proof.
  apply (reach_step rnd0 (Tick dt_demo)). exact started_world_reachable.
Qed.

Lemma angles_stay_normalized_witness :
  Forall (fun st => in_range (current_angle_rad st)
                    /\ in_range (target_angle_rad st))
         (domain_states first_pass_world).
Proof.
  exact (angles_stay_normalized rnd0 first_pass_world rnd0_uniform
           first_pass_world_reachable).
Defined.

(** * Iterations with timestep 0 *)

Lemma reachable_y_pos_bounded (rnd : nat -> nat -> R) (w : world) :
  reachable rnd w ->
  saw_visual_y_pos w <= FILM_LENGTH + saw_visual_thickness / 2.
Proof.
  intros Hw. induction Hw as [| e w _ IH].
  - cbn. unfold_params. lra.
  - destruct e; cbn [step]; try exact IH.
    rewrite tick_y_pos. destruct (saw_on w); [apply wrap_bounded | exact IH].
Qed.

Lemma trigger_original (tribo : bool) (st : domain_state) :
  original_angle_rad (trigger tribo st) = original_angle_rad st.
Proof. reflexivity. Qed.

Lemma interact_original (tribo : bool) (z p : R) (st : domain_state) :
  original_angle_rad (interact tribo z p st) = original_angle_rad st.
Proof.
  unfold interact. destruct (saw_over_domain p z); [| reflexivity].
  now destruct (negb (is_flipped st)).
Qed.

Lemma retain_or_relax_original (dt : R) (st : domain_state) :
  original_angle_rad (retain_or_relax dt st) = original_angle_rad st.
Proof.
  unfold retain_or_relax.
  repeat match goal with
         | |- context [if ?b then _ else _] => destruct b
         end; reflexivity.
Qed.

Lemma update_domain_original (dt : R) (st : domain_state) :
  original_angle_rad (update_domain dt st) = original_angle_rad st.
Proof.
  unfold update_domain. rewrite retain_or_relax_original.
  apply rotate_frame.
Qed.

Lemma cell_tick_original (dt : R) (on tribo : bool) (z p : R)
    (st : domain_state) :
  original_angle_rad (cell_tick dt on tribo z p st) = original_angle_rad st.
Proof.
  unfold cell_tick. rewrite update_domain_original.
  destruct on; [apply interact_original | reflexivity].
Qed.

(** With timestep 0 a Holding domain keeps everything but its angle. *)
Lemma update_holding_zero (st : domain_state) :
  is_flipped st = true -> retention_timer st > 0 ->
  is_flipped (update_domain 0 st) = true /\
  target_angle_rad (update_domain 0 st) = target_angle_rad st /\
  retention_timer (update_domain 0 st) = retention_timer st /\
  max_rotation_rad (update_domain 0 st) = max_rotation_rad st.
Proof.
  intros Hf Ht. unfold update_domain.
  destruct (rotate_frame st) as (Htg & Htm & _ & Hfl & Hmx).
  rewrite retain_counting by (rewrite ?Hfl, ?Htm; lra || assumption).
  cbn. rewrite Htg, Htm, Hmx. repeat apply conj; try reflexivity. lra.
Qed.

(** A Relaxing domain keeps its target and its (expired) timer. *)
Lemma update_relaxing_frame (dt : R) (st : domain_state) :
  is_flipped st = true -> retention_timer st <= 0 ->
  target_angle_rad (update_domain dt st) = target_angle_rad st /\
  retention_timer (update_domain dt st) = retention_timer st.
Proof.
  intros Hf Ht. unfold update_domain.
  destruct (rotate_frame st) as (Htg & Htm & _ & Hfl & _).
  destruct (Rle_dec (Rabs (current_angle_rad (rotate_to_target st)
                           - original_angle_rad (rotate_to_target st)))
                    (radians 0.5)) as [Hnear | Hfar].
  - rewrite relax_near by (rewrite ?Hfl, ?Htm; assumption).
    cbn. now rewrite Htg, Htm.
  - rewrite relax_far by (rewrite ?Hfl, ?Htm; lra || assumption).
    cbn. now rewrite Htg, Htm.
Qed.

(** C2, amended: in a reachable state an iteration with timestep 0
    leaves the SAW position as it is; it leaves a domain at rest
    untouched unless the SAW is on and over it (then the domain is
    triggered); of a Holding domain it keeps the state, the target
    angle, the retention timer and [max_rotation_rad]; of a Relaxing
    domain the target angle and the timer; the original angle is never
    touched.  [current_angle_rad] of a domain in flight is not kept:
    the rotation steps are taken per iteration, whatever the timestep. *)
Theorem tick_zero_frame (rnd : nat -> nat -> R) (w : world) (c : nat)
    (p : R) (st : domain_state) :
  reachable rnd w ->
  nth_error (domains w) c = Some p ->
  nth_error (domain_states w) c = Some st ->
  saw_visual_y_pos (tick 0 w) = saw_visual_y_pos w /\
  exists st' : domain_state,
    nth_error (domain_states (tick 0 w)) c = Some st' /\
    original_angle_rad st' = original_angle_rad st /\
    (tag_of st = AtRest ->
       saw_on w = false \/ saw_over_domain p (saw_visual_y_pos w) = false ->
       st' = st) /\
    (tag_of st = Holding ->
       tag_of st' = Holding /\
       target_angle_rad st' = target_angle_rad st /\
       retention_timer st' = retention_timer st /\
       max_rotation_rad st' = max_rotation_rad st) /\
    (tag_of st = Relaxing ->
       target_angle_rad st' = target_angle_rad st /\
       retention_timer st' = retention_timer st).
Proof.
  intros Hw Hp Hst.
  assert (Hadv : advanced 0 w = saw_visual_y_pos w)
    by (unfold advanced; lra).
  split.
  - rewrite tick_y_pos. destruct (saw_on w); [| reflexivity].
    rewrite Hadv. apply wrap_below. now apply (reachable_y_pos_bounded rnd).
  - eexists. split; [apply (tick_nth 0 w c p st Hp Hst) |].
    rewrite Hadv. repeat apply conj.
    + apply cell_tick_original.
    + intros Htag Hquiet. apply tag_at_rest in Htag.
      unfold cell_tick.
      destruct Hquiet as [Hoff | Hout].
      * rewrite Hoff. now apply update_domain_at_rest.
      * rewrite (interact_no_overlap _ _ _ _ Hout).
        destruct (saw_on w); now apply update_domain_at_rest.
    + intros Htag. apply tag_holding in Htag. destruct Htag as [Hf Ht].
      rewrite cell_tick_flipped by exact Hf.
      destruct (update_holding_zero st Hf Ht) as (H1 & H2 & H3 & H4).
      repeat apply conj; try assumption.
      apply tag_holding. split; [exact H1 | now rewrite H3].
    + intros Htag. apply tag_relaxing in Htag. destruct Htag as [Hf Ht].
      rewrite cell_tick_flipped by exact Hf.
      now apply update_relaxing_frame.
Qed.

(** ** The first row of domains in the first iterations *)

Lemma domain_y_pos_0 : domain_y_pos 0 = 12.5e-9.
Proof. unfold domain_y_pos. cbn [INR]. unfold_params. lra. Qed.

Lemma new_state_rnd0 (i j : nat) : new_state (initial_angle rnd0 i j) = new_state 0.
Proof.
  f_equal. unfold initial_angle, rnd0, radians,
    INITIAL_MAGNETIZATION_ANGLE_DEG. lra.
Qed.

Lemma trigger_plain_holding : trigger false (new_state 0) = holding_at 0 2.0.
Proof.
  rewrite trigger_plain_scenario. unfold holding_at. f_equal.
  unfold radians. lra.
Qed.

(** One iteration on a Holding domain more than 0.5 degrees away from
    its target of -15 degrees, with retention left after the iteration. *)
Lemma update_holding_at (dt a t : R) :
  -15 + 0.5 < a <= 90 -> t > 0 -> t - dt > 0 ->
  update_domain dt (holding_at a t)
  = holding_at (a + 0.2 * (-15 - a)) (t - dt).
Proof.
  intros Ha Ht Hleft. unfold update_domain.
  assert (Hn : normalize (radians (-15) - radians a) = radians (-15 - a)).
  { replace (radians (-15) - radians a) with (radians (-15 - a))
      by (unfold radians; lra).
    apply normalize_radians. lra. }
  rewrite rotate_far.
  - rewrite retain_counting by (cbn; lra || reflexivity).
    unfold holding_at. cbn. rewrite Hn. f_equal.
    replace (radians a + radians (-15 - a) * 0.2)
      with (radians (a + 0.2 * (-15 - a))) by (unfold radians; lra).
    apply normalize_radians. lra.
  - reflexivity.
  - cbn. replace (radians a - radians (-15)) with (radians (a + 15))
      by (unfold radians; lra).
    rewrite Rabs_radians. apply radians_lt. rewrite Rabs_pos_eq; lra.
Qed.

Lemma first_pass_cell_0 :
  nth_error (domain_states first_pass_world) 0
  = Some (holding_at (-3) (2.0 - dt_demo)).
Proof.
  unfold first_pass_world.
  rewrite (tick_nth dt_demo started_world 0 (domain_y_pos 0)
             (new_state (initial_angle rnd0 0 0)) eq_refl eq_refl).
  f_equal. rewrite new_state_rnd0. unfold cell_tick.
  change (saw_on started_world) with true.
  change (tribo_on started_world) with false.
  rewrite interact_triggers.
  - rewrite trigger_plain_holding, update_holding_at.
    + f_equal. lra.
    + lra.
    + lra.
    + unfold_params. lra.
  - apply saw_over_domain_true. rewrite domain_y_pos_0.
    unfold advanced, started_world. cbn [toggle_saw initial_world
      saw_visual_y_pos]. unfold_params. lra.
  - reflexivity.
Qed.

(** C2, as stated, fails: after the first iteration with the SAW on,
    the first domain is Holding at -3 degrees; an iteration with
    timestep 0 moves it to -5.4 degrees. *)
Lemma tick_zero_moves_a_holding_cell :
  reachable rnd0 first_pass_world /\
  exists s s' : domain_state,
    nth_error (domain_states first_pass_world) 0 = Some s /\
    nth_error (domain_states (tick 0 first_pass_world)) 0 = Some s' /\
    tag_of s = Holding /\
    current_angle_rad s = radians (-3) /\
    current_angle_rad s' = radians (-5.4) /\
    current_angle_rad s' <> current_angle_rad s.
Proof.
  split; [exact first_pass_world_reachable |].
  exists (holding_at (-3) (2.0 - dt_demo)),
         (holding_at (-5.4) (2.0 - dt_demo - 0)).
  repeat apply conj.
  - exact first_pass_cell_0.
  - rewrite (tick_nth 0 first_pass_world 0 (domain_y_pos 0) _ eq_refl
               first_pass_cell_0).
    f_equal. rewrite cell_tick_flipped by reflexivity.
    rewrite update_holding_at; [f_equal; lra | lra | |];
      unfold_params; lra.
  - apply tag_holding. cbn. split; [reflexivity | unfold_params; lra].
  - reflexivity.
  - reflexivity.
  - cbn. intros Heq. pose proof (radians_lt (-5.4) (-3)). lra.
Qed.

Lemma tick_zero_frame_witness :
  saw_visual_y_pos (tick 0 first_pass_world)
  = saw_visual_y_pos first_pass_world.
Proof.
  exact (proj1 (tick_zero_frame rnd0 first_pass_world 0 (domain_y_pos 0)
                  (holding_at (-3) (2.0 - dt_demo))
                  first_pass_world_reachable eq_refl first_pass_cell_0)).
Defined.

(** * No second trigger before the domain is back at rest *)

(** The clicks leave [domain_states] alone; an iteration passes every
    domain through [cell_tick]. *)
Lemma step_cell (e : event) (w : world) (c : nat) (s' : domain_state) :
  nth_error (domain_states (step e w)) c = Some s' ->
  exists s : domain_state,
    nth_error (domain_states w) c = Some s /\
    (s' = s \/
     exists (dt : R) (on tribo : bool) (z p : R),
       s' = cell_tick dt on tribo z p s).
Proof.
  destruct e as [dt | |]; cbn [step].
  - rewrite tick_cells. intros H.
    apply map_states_nth_inv in H. destruct H as (p & s & _ & Hs & ->).
    exists s. split; [exact Hs |]. right.
    now exists dt, (saw_on w), (tribo_on w), (advanced dt w), p.
  - intros H. exists s'. split; [exact H | now left].
  - intros H. exists s'. split; [exact H | now left].
Qed.

Lemma run_firstn_S (evs : list event) (w : world) (n : nat) :
  run (firstn (S n) evs) w
  = match nth_error evs n with
    | Some e => step e (run (firstn n evs) w)
    | None => run (firstn n evs) w
    end.
Proof.
  revert w n. induction evs as [| e evs IH]; intros w n.
  - now destruct n.
  - destruct n as [| n].
    + reflexivity.
    + cbn [firstn nth_error]. rewrite !run_cons. apply IH.
Qed.

Lemma cell_at_step (evs : list event) (w : world) (c n : nat)
    (s' : domain_state) :
  cell_at evs w c (S n) = Some s' ->
  exists s : domain_state,
    cell_at evs w c n = Some s /\
    (s' = s \/
     exists (dt : R) (on tribo : bool) (z p : R),
       s' = cell_tick dt on tribo z p s).
Proof.
  unfold cell_at. rewrite run_firstn_S.
  destruct (nth_error evs n) as [e |].
  - apply step_cell.
  - intros H. exists s'. split; [exact H | now left].
Qed.

(** A flipped domain is unflipped only by the relaxing branch, which a
    domain with retention left does not reach. *)
Lemma update_domain_unflips (dt : R) (s : domain_state) :
  is_flipped s = true -> is_flipped (update_domain dt s) = false ->
  retention_timer s <= 0.
Proof.
  intros Hf Hun. unfold update_domain in Hun.
  destruct (rotate_frame s) as (_ & Htm & _ & Hfl & _).
  rewrite Hf in Hfl.
  destruct (Rle_dec (retention_timer s) 0) as [Hle | Hgt]; [exact Hle |].
  exfalso. revert Hun. unfold retain_or_relax. rewrite Hfl, Htm. cbn [andb].
  assert (E : Rgtb (retention_timer s) 0 = true) by (apply Rgtb_true; lra).
  rewrite E. destruct (Rleb _ _); cbn; discriminate.
Qed.

Lemma cell_tick_unflips (dt : R) (on tribo : bool) (z p : R)
    (s : domain_state) :
  is_flipped s = true -> is_flipped (cell_tick dt on tribo z p s) = false ->
  tag_of s = Relaxing /\ tag_of (cell_tick dt on tribo z p s) = AtRest.
Proof.
  intros Hf Hun. split.
  - apply tag_relaxing. split; [exact Hf |].
    rewrite cell_tick_flipped in Hun by exact Hf.
    now apply (update_domain_unflips dt).
  - now apply tag_at_rest.
Qed.

(** Between a moment the domain is flipped and a later moment it is
    not, some event takes it from Relaxing to AtRest. *)
Lemma settles_between (evs : list event) (w : world) (c : nat) (d i : nat)
    (a b : domain_state) :
  cell_at evs w c i = Some a -> is_flipped a = true ->
  cell_at evs w c (i + d) = Some b -> is_flipped b = false ->
  exists k : nat, (i <= k < i + d)%nat /\ settles_at evs w c k.
Proof.
  revert b. induction d as [| d IH]; intros b Ha Hfa Hb Hfb.
  - rewrite Nat.add_0_r in Hb. congruence.
  - replace (i + S d)%nat with (S (i + d)) in Hb by lia.
    destruct (cell_at_step evs w c (i + d) b Hb) as (s & Hs & Hstep).
    destruct (is_flipped s) eqn:Hfs.
    + exists (i + d)%nat. split; [lia |].
      destruct Hstep as [-> | (dt & on & tribo & z & p & ->)];
        [congruence |].
      destruct (cell_tick_unflips dt on tribo z p s Hfs Hfb) as [H1 H2].
      exists s, (cell_tick dt on tribo z p s). now repeat split.
    + destruct (IH s Ha Hfa Hs Hfs) as (k & Hk & Hsettle).
      exists k. split; [lia | exact Hsettle].
Qed.

(** Along any sequence of iterations and clicks, if a domain leaves
    AtRest in event [i] and again in a later event [j], some event
    strictly between the two took it from Relaxing to AtRest. *)
Lemma settle_between_fires (evs : list event) (w : world)
    (c i j : nat) :
  (i < j)%nat ->
  fires_at evs w c i -> fires_at evs w c j ->
  exists k : nat, (i < k < j)%nat /\ settles_at evs w c k.
Proof.
  intros Hij (_ & a & _ & Ha & _ & Hta) (b & _ & Hb & _ & Htb & _).
  apply not_at_rest in Hta. apply tag_at_rest in Htb.
  replace j with (S i + (j - S i))%nat in Hb by lia.
  destruct (settles_between evs w c (j - S i) (S i) a b Ha Hta Hb Htb)
    as (k & Hk & Hsettle).
  exists k. split; [lia | exact Hsettle].
Qed.

(** ** A full cycle of the one-domain grid *)

Lemma domain_y_pos_23 : domain_y_pos 23 = 587.5e-9.
Proof.
  unfold domain_y_pos. rewrite INR_IZR_INZ. cbn. unfold_params. lra.
Qed.

Lemma tick_probe (dt y z : R) (st : domain_state) :
  tick dt (probe y z st)
  = probe (wrap (y + saw_speed * dt)) (y + saw_speed * dt)
      (cell_tick dt true false (y + saw_speed * dt) (domain_y_pos 23) st).
Proof. reflexivity. Qed.

Lemma over_the_probe : saw_over_domain (domain_y_pos 23) 587.5e-9 = true.
Proof.
  apply saw_over_domain_true. rewrite domain_y_pos_23. unfold_params. lra.
Qed.

(** An iteration that leaves the SAW in the middle of the film. *)
Lemma tick_probe_mid (dt y z : R) (st : domain_state) :
  y + saw_speed * dt = 587.5e-9 ->
  tick dt (probe y z st)
  = probe 587.5e-9 587.5e-9
      (cell_tick dt true false 587.5e-9 (domain_y_pos 23) st).
Proof.
  intros Hy. rewrite tick_probe, Hy. f_equal.
  apply wrap_below. unfold_params. lra.
Qed.

Lemma update_holding_at_expiring (dt a t : R) :
  -15 + 0.5 < a <= 90 -> t > 0 -> t - dt <= 0 ->
  update_domain dt (holding_at a t) = relaxing_at (a + 0.2 * (-15 - a)).
Proof.
  intros Ha Ht Hleft. unfold update_domain.
  assert (Hn : normalize (radians (-15) - radians a) = radians (-15 - a)).
  { replace (radians (-15) - radians a) with (radians (-15 - a))
      by (unfold radians; lra).
    apply normalize_radians. lra. }
  rewrite rotate_far.
  - rewrite retain_expiring by (cbn; lra || reflexivity).
    unfold relaxing_at. cbn. rewrite Hn. f_equal.
    replace (radians a + radians (-15 - a) * 0.2)
      with (radians (a + 0.2 * (-15 - a))) by (unfold radians; lra).
    apply normalize_radians. lra.
  - reflexivity.
  - cbn. replace (radians a - radians (-15)) with (radians (a + 15))
      by (unfold radians; lra).
    rewrite Rabs_radians. apply radians_lt. rewrite Rabs_pos_eq; lra.
Qed.

(** The last relaxing iteration: the 20% step brings the domain within
    0.5 degrees and it is put back at rest. *)
Lemma update_relaxing_at_near (dt a : R) :
  0.5 < Rabs a <= 0.625 ->
  update_domain dt (relaxing_at a) = new_state 0.
Proof.
  intros Ha.
  assert (Hr : -0.625 <= a <= 0.625).
  { destruct Ha as [_ Ha]. unfold Rabs in Ha. destruct (Rcase_abs a); lra. }
  assert (Hn : normalize (0 - radians a) = radians (- a)).
  { replace (0 - radians a) with (radians (- a)) by (unfold radians; lra).
    apply normalize_radians. lra. }
  rewrite update_relaxing_near; unfold relaxing_at; cbn; try reflexivity;
    try lra.
  - unfold new_state. f_equal; lra.
  - replace (radians a - 0) with (radians a) by lra.
    rewrite Rabs_radians. apply radians_lt. lra.
  - rewrite Hn.
    replace (radians a + radians (- a) * 0.2) with (radians (0.8 * a))
      by (unfold radians; lra).
    rewrite normalize_radians by lra.
    replace (radians (0.8 * a) - 0) with (radians (0.8 * a)) by lra.
    rewrite Rabs_radians. unfold radians. pose proof PI_pos.
    rewrite Rabs_mult, (Rabs_pos_eq 0.8) by lra. nra.
Qed.

Lemma tick_probe_trigger_expire :
  tick 3 (probe saw_start saw_start (new_state 0))
  = probe 587.5e-9 587.5e-9 (relaxing_at (-3)).
Proof.
  rewrite tick_probe_mid by (unfold_params; lra). f_equal.
  unfold cell_tick.
  rewrite interact_triggers by (exact over_the_probe || reflexivity).
  rewrite trigger_plain_holding, update_holding_at_expiring by lra.
  f_equal. lra.
Qed.

Lemma tick_probe_relaxing_far (a : R) :
  0.625 < Rabs a <= 90 ->
  tick 0 (probe 587.5e-9 587.5e-9 (relaxing_at a))
  = probe 587.5e-9 587.5e-9 (relaxing_at (0.76 * a)).
Proof.
  intros Ha. rewrite tick_probe_mid by lra. f_equal.
  rewrite cell_tick_flipped by reflexivity.
  now apply update_relaxing_at_far.
Qed.

Lemma tick_probe_relaxing_near (a : R) :
  0.5 < Rabs a <= 0.625 ->
  tick 0 (probe 587.5e-9 587.5e-9 (relaxing_at a))
  = probe 587.5e-9 587.5e-9 (new_state 0).
Proof.
  intros Ha. rewrite tick_probe_mid by lra. f_equal.
  rewrite cell_tick_flipped by reflexivity.
  now apply update_relaxing_at_near.
Qed.

Lemma tick_probe_retrigger :
  tick 0 (probe 587.5e-9 587.5e-9 (new_state 0))
  = probe 587.5e-9 587.5e-9 (holding_at (-3) 2.0).
Proof.
  rewrite tick_probe_mid by lra. f_equal. unfold cell_tick.
  rewrite interact_triggers by (exact over_the_probe || reflexivity).
  rewrite trigger_plain_holding, update_holding_at by lra.
  f_equal; lra.
Qed.

(** The SAW is put over the domain by one long iteration, which also
    uses up the retention; the domain then relaxes over seven
    iterations of timestep 0 and is triggered again by the eighth. *)
Lemma probe_cycle :
  let evs := Tick 3 :: repeat (Tick 0) 8 in
  let w := probe saw_start saw_start (new_state 0) in
  cell_at evs w 0 0 = Some (new_state 0) /\
  cell_at evs w 0 1 = Some (relaxing_at (-3)) /\
  cell_at evs w 0 8 = Some (new_state 0) /\
  cell_at evs w 0 9 = Some (holding_at (-3) 2.0).
Proof.
  intros evs w.
  assert (H1 : run [Tick 3] w = probe 587.5e-9 587.5e-9 (relaxing_at (-3))).
  { rewrite run_cons. cbn [step run fold_left].
    exact tick_probe_trigger_expire. }
  assert (H8 : run (repeat (Tick 0) 7) (run [Tick 3] w)
               = probe 587.5e-9 587.5e-9 (new_state 0)).
  { rewrite H1. cbn [repeat].
    do 6 (rewrite run_cons; cbn [step];
          rewrite tick_probe_relaxing_far by (rewrite Rabs_left; lra)).
    rewrite run_cons. cbn [step].
    rewrite tick_probe_relaxing_near by (rewrite Rabs_left; lra).
    reflexivity. }
  assert (H9 : run [Tick 0] (run (repeat (Tick 0) 7) (run [Tick 3] w))
               = probe 587.5e-9 587.5e-9 (holding_at (-3) 2.0)).
  { rewrite H8, run_cons. cbn [step]. rewrite tick_probe_retrigger.
    reflexivity. }
  assert (E1 : firstn 1 evs = [Tick 3]) by reflexivity.
  assert (E8 : firstn 8 evs = [Tick 3] ++ repeat (Tick 0) 7) by reflexivity.
  assert (E9 : firstn 9 evs = ([Tick 3] ++ repeat (Tick 0) 7) ++ [Tick 0])
    by reflexivity.
  unfold cell_at. rewrite E1, E8, E9, !run_app, H9, H8, H1.
  repeat apply conj; reflexivity.
Qed.

(** * The angles the program really visits *)

Lemma radians_le (a b : R) : a <= b -> radians a <= radians b.
Proof. intros H. unfold radians. pose proof PI_pos. nra. Qed.

Lemma radians_minus (a b : R) : radians a - radians b = radians (a - b).
Proof. unfold radians. lra. Qed.

Lemma radians_bounds (d : R) :
  -180 < d <= 180 -> - PI < radians d <= PI.
Proof. apply radians_in_range. Qed.

(** An angle within 26 degrees below and 5 degrees above 0 is its own
    normal form. *)
Lemma normalize_small (a : R) :
  radians (-42) <= a <= radians 42 -> normalize a = a.
Proof.
  intros H. apply normalize_id. unfold in_range, radians in *.
  pose proof PI_pos. lra.
Qed.

Lemma cos_small_nonneg (a : R) :
  radians (-5) <= a <= radians 5 -> cos a >= 0.
Proof.
  intros H. apply Rle_ge, cos_ge_0; unfold radians in *;
    pose proof PI_pos; lra.
Qed.

Lemma new_state_flight (a : R) :
  radians (-5) <= a <= radians 5 -> flight_inv (new_state a).
Proof. intros H. split; [exact H | discriminate]. Qed.

(** In this program the trigger always takes the first branch and the
    normalisation of the target changes nothing. *)
Lemma trigger_small (tribo : bool) (st : domain_state) :
  radians (-5) <= original_angle_rad st <= radians 5 ->
  trigger tribo st
  = mkState (current_angle_rad st)
      (original_angle_rad st - radians (if tribo then 21 else 15))
      (ret_time_s tribo) (original_angle_rad st) true
      (original_angle_rad st - radians (if tribo then 21 else 15)).
Proof.
  intros Ho. unfold trigger, ret_time_s.
  assert (Hc : Rgeb (cos (original_angle_rad st)) 0 = true)
    by (apply Rgeb_true; now apply cos_small_nonneg).
  rewrite Hc.
  assert (Hm : (if tribo then MAX_ROTATION_TRIBO_DEG
                else MAX_ROTATION_STRAIN_DEG) = (if tribo then 21 else 15)).
  { destruct tribo; [apply tribo_magnitude | reflexivity]. }
  rewrite Hm.
  rewrite normalize_small; [reflexivity |].
  unfold radians in *. pose proof PI_pos. destruct tribo; lra.
Qed.

Lemma trigger_flight (tribo : bool) (st : domain_state) :
  cell_inv st -> flight_inv st -> is_flipped st = false ->
  flight_inv (trigger tribo st).
Proof.
  intros (_ & _ & _ & _ & _ & Hrest) [Ho _] Hf.
  destruct (Hrest Hf) as (Hcur & _ & _).
  rewrite trigger_small by exact Ho. split; [exact Ho |].
  intros _. cbn. rewrite Hcur. unfold radians in *. pose proof PI_pos.
  destruct tribo; repeat apply conj; auto; lra.
Qed.

Lemma interact_flight (tribo : bool) (z p : R) (st : domain_state) :
  cell_inv st -> flight_inv st -> flight_inv (interact tribo z p st).
Proof.
  intros Hc Hfl. unfold interact.
  destruct (saw_over_domain p z); [| exact Hfl].
  destruct (is_flipped st) eqn:Hf; [exact Hfl |]. cbn [negb].
  now apply trigger_flight.
Qed.

(** The target of a flipped domain lies between the recorded maximum
    and the original angle. *)
Lemma target_between (st : domain_state) :
  cell_inv st -> flight_inv st -> is_flipped st = true ->
  max_rotation_rad st <= target_angle_rad st <= original_angle_rad st /\
  original_angle_rad st - radians 21 <= max_rotation_rad st.
Proof.
  intros (_ & _ & _ & _ & Hexp & _) [Ho Hfl] Hf.
  destruct (Hfl Hf) as (Hmax & Hcur & Hhold).
  assert (Hm : original_angle_rad st - radians 21 <= max_rotation_rad st
               <= original_angle_rad st).
  { unfold radians in *. pose proof PI_pos. destruct Hmax; lra. }
  split; [| lra].
  destruct (Rle_dec (retention_timer st) 0) as [Hle | Hgt].
  - rewrite (Hexp Hle). lra.
  - rewrite Hhold by lra. lra.
Qed.

(** A step by a fraction of the way from [cur] to [goal], both within
    the small range: no wrap-around, plain interpolation. *)
Lemma step_small (cur goal f : R) :
  radians (-26) <= cur <= radians 5 ->
  radians (-26) <= goal <= radians 5 ->
  0 <= f <= 1 ->
  normalize (cur + normalize (goal - cur) * f) = cur + (goal - cur) * f.
Proof.
  intros Hc Hg Hf.
  assert (Hd : normalize (goal - cur) = goal - cur).
  { apply normalize_small. unfold radians in *. pose proof PI_pos. lra. }
  rewrite Hd. apply normalize_small.
  unfold radians in *. pose proof PI_pos. nra.
Qed.

Lemma flight_range (st : domain_state) :
  cell_inv st -> flight_inv st -> is_flipped st = true ->
  radians (-26) <= current_angle_rad st <= radians 5 /\
  radians (-26) <= target_angle_rad st <= radians 5 /\
  radians (-26) <= max_rotation_rad st.
Proof.
  intros Hc Hfl Hf.
  destruct (target_between st Hc Hfl Hf) as [Ht Hm].
  destruct Hfl as [Ho Hfl]. destruct (Hfl Hf) as (_ & Hcur & _).
  unfold radians in *. pose proof PI_pos. repeat apply conj; lra.
Qed.

Lemma rotate_small (st : domain_state) :
  cell_inv st -> flight_inv st -> is_flipped st = true ->
  Rabs (current_angle_rad st - target_angle_rad st) > radians 0.5 ->
  rotate_to_target st
  = mkState
      (current_angle_rad st
       + (target_angle_rad st - current_angle_rad st) * 0.2)
      (target_angle_rad st) (retention_timer st) (original_angle_rad st)
      true (max_rotation_rad st).
Proof.
  intros Hc Hfl Hf Hfar.
  destruct (flight_range st Hc Hfl Hf) as (Hcur & Htg & _).
  rewrite rotate_far by assumption.
  now rewrite step_small by (assumption || lra).
Qed.

Lemma rotate_flight (st : domain_state) :
  cell_inv st -> flight_inv st -> flight_inv (rotate_to_target st).
Proof.
  intros Hc Hfl.
  destruct (is_flipped st) eqn:Hf.
  - destruct (Rle_dec (Rabs (current_angle_rad st - target_angle_rad st))
                      (radians 0.5)) as [Hnear | Hfar].
    + now rewrite rotate_near.
    + rewrite rotate_small by (assumption || lra).
      destruct (target_between st Hc Hfl Hf) as [Ht _].
      destruct Hfl as [Ho Hfl]. destruct (Hfl Hf) as (Hmax & Hcur & Hhold).
      split; [exact Ho |]. intros _. cbn.
      repeat apply conj; try assumption; nra.
  - unfold rotate_to_target. now rewrite Hf.
Qed.

Lemma retain_or_relax_flight (dt : R) (st : domain_state) :
  cell_inv st -> flight_inv st -> flight_inv (retain_or_relax dt st).
Proof.
  intros Hc Hfl.
  destruct (is_flipped st) eqn:Hf.
  - pose proof Hfl as [Ho Hfl']. destruct (Hfl' Hf) as (Hmax & Hcur & Hhold).
    destruct (flight_range st Hc Hfl Hf) as (Hcr & _ & _).
    destruct (Rle_dec (retention_timer st) 0) as [Hexp | Hleft].
    + destruct (Rle_dec (Rabs (current_angle_rad st - original_angle_rad st))
                        (radians 0.5)) as [Hnear | Hfar].
      * rewrite relax_near by assumption. split; [exact Ho | discriminate].
      * rewrite relax_far by (assumption || lra).
        rewrite step_small by (assumption || lra).
        split; [exact Ho |]. intros _. cbn.
        repeat apply conj; try assumption; try nra; intros; lra.
    + destruct (Rle_dec (retention_timer st - dt) 0) as [Hout | Hin].
      * rewrite retain_expiring by (assumption || lra).
        split; [exact Ho |]. intros _. cbn.
        repeat apply conj; try assumption; try lra; intros; lra.
      * rewrite retain_counting by (assumption || lra).
        split; [exact Ho |]. intros _. cbn.
        repeat apply conj; try assumption; try lra; intros; apply Hhold; lra.
  - unfold retain_or_relax. now rewrite Hf.
Qed.

Lemma update_domain_flight (dt : R) (st : domain_state) :
  cell_inv st -> flight_inv st -> flight_inv (update_domain dt st).
Proof.
  intros Hc Hfl. unfold update_domain.
  apply retain_or_relax_flight; [now apply rotate_inv | now apply rotate_flight].
Qed.

Lemma cell_tick_flight (dt : R) (on tribo : bool) (z p : R)
    (st : domain_state) :
  cell_inv st -> flight_inv st -> flight_inv (cell_tick dt on tribo z p st).
Proof.
  intros Hc Hfl. unfold cell_tick. destruct on.
  - apply update_domain_flight; [now apply interact_inv |].
    now apply interact_flight.
  - now apply update_domain_flight.
Qed.

Lemma map_states_Forall2 (P Q : domain_state -> Prop)
    (f : R -> domain_state -> domain_state)
    (ds : list R) (sts : list domain_state) :
  (forall p st, P st -> Q st -> Q (f p st)) ->
  Forall P sts -> Forall Q sts -> Forall Q (map_states f ds sts).
Proof.
  intros Hf HP HQ. unfold map_states. revert ds.
  induction sts as [| s sts IH]; intros [| d ds]; cbn; try constructor.
  - apply Hf; [now inversion HP | now inversion HQ].
  - apply IH; [now inversion HP | now inversion HQ].
Qed.

Lemma reachable_flight (rnd : nat -> nat -> R) (w : world) :
  uniform_draws rnd -> reachable rnd w ->
  Forall flight_inv (domain_states w).
Proof.
  intros Hrnd Hw. induction Hw as [| e w Hw IH].
  - unfold initial_world, initial_domain_states. cbn [domain_states].
    apply Forall_forall. intros st Hin.
    apply in_flat_map in Hin. destruct Hin as (i & _ & Hin).
    apply in_map_iff in Hin. destruct Hin as (j & <- & _).
    apply new_state_flight. unfold initial_angle.
    unfold INITIAL_MAGNETIZATION_ANGLE_DEG. specialize (Hrnd i j).
    split; apply radians_le; lra.
  - destruct e; cbn [step]; try exact IH.
    rewrite tick_cells.
    destruct (reachable_inv rnd w Hrnd Hw) as (_ & _ & Hall).
    apply (map_states_Forall2 cell_inv); try assumption.
    intros p st. apply cell_tick_flight.
Qed.

(** X1: in every reachable state, every domain's original angle is
    within 5 degrees of 0, and every flipped domain was rotated by
    exactly 15 or 21 degrees to the negative side (the branch for
    [cos original < 0] is never taken and normalisation never wraps),
    sits between that target and its original angle, and, while its
    retention runs, heads for that target. *)
Theorem flipped_domains_stay_between (rnd : nat -> nat -> R) (w : world) :
  uniform_draws rnd -> reachable rnd w ->
  Forall (fun st =>
            radians (-5) <= original_angle_rad st <= radians 5 /\
            (tag_of st <> AtRest ->
               (max_rotation_rad st = original_angle_rad st - radians 15 \/
                max_rotation_rad st = original_angle_rad st - radians 21) /\
               max_rotation_rad st <= current_angle_rad st
               <= original_angle_rad st) /\
            (tag_of st = Holding ->
               target_angle_rad st = max_rotation_rad st))
         (domain_states w).
Proof.
  intros Hrnd Hw.
  eapply Forall_impl; [| exact (reachable_flight rnd w Hrnd Hw)].
  intros st [Ho Hfl]. repeat apply conj; try apply Ho.
  - intros Htag. apply not_at_rest in Htag.
    destruct (Hfl Htag) as (H1 & H2 & _). now split.
  - intros Htag. apply tag_holding in Htag. destruct Htag as [Hf Ht].
    destruct (Hfl Hf) as (_ & _ & H3). now apply H3.
Qed.

Lemma flipped_domains_stay_between_witness :
  Forall (fun st =>
            radians (-5) <= original_angle_rad st <= radians 5 /\
            (tag_of st <> AtRest ->
               (max_rotation_rad st = original_angle_rad st - radians 15 \/
                max_rotation_rad st = original_angle_rad st - radians 21) /\
               max_rotation_rad st <= current_angle_rad st
               <= original_angle_rad st) /\
            (tag_of st = Holding ->
               target_angle_rad st = max_rotation_rad st))
         (domain_states first_pass_world).
Proof.
  exact (flipped_domains_stay_between rnd0 first_pass_world rnd0_uniform
           first_pass_world_reachable).
Defined.

(** * What is drawn *)

Lemma cos_above_half (a : R) : - (PI / 3) <= a <= PI / 3 -> 1 / 2 <= cos a.
Proof.
  intros [Hlo Hhi]. pose proof PI_pos as HPI. rewrite <- cos_PI3.
  destruct (Rle_dec 0 a) as [Hpos | Hneg].
  - apply cos_decr_1; lra.
  - rewrite <- (cos_neg a). apply cos_decr_1; lra.
Qed.

Lemma domain_color_up (st : domain_state) :
  radians (-26) <= current_angle_rad st <= radians 5 ->
  domain_color st = COLOR_DOMAIN_UP.
Proof.
  intros H. unfold domain_color.
  assert (Hc : 1 / 2 <= cos (current_angle_rad st)).
  { apply cos_above_half. unfold radians in H. pose proof PI_pos. lra. }
  assert (E : Rgtb (cos (current_angle_rad st)) 0.1 = true)
    by (apply Rgtb_true; lra).
  now rewrite E.
Qed.

Lemma flight_current_range (st : domain_state) :
  cell_inv st -> flight_inv st ->
  radians (-26) <= current_angle_rad st <= radians 5.
Proof.
  intros Hc Hfl. destruct (is_flipped st) eqn:Hf.
  - now destruct (flight_range st Hc Hfl Hf) as (H & _).
  - destruct Hc as (_ & _ & _ & _ & _ & Hrest).
    destruct (Hrest Hf) as (-> & _). destruct Hfl as [Ho _].
    unfold radians in *. pose proof PI_pos. lra.
Qed.

Lemma reachable_both (rnd : nat -> nat -> R) (w : world) :
  uniform_draws rnd -> reachable rnd w ->
  Forall (fun st => cell_inv st /\ flight_inv st) (domain_states w).
Proof.
  intros Hrnd Hw.
  destruct (reachable_inv rnd w Hrnd Hw) as (_ & _ & Hc).
  pose proof (reachable_flight rnd w Hrnd Hw) as Hfl.
  apply Forall_forall. intros st Hin. split.
  - now apply (proj1 (Forall_forall _ _) Hc).
  - now apply (proj1 (Forall_forall _ _) Hfl).
Qed.

(** X2: the flip is never visible in the colour.  In every reachable
    state every domain's current angle is between -26 and 5 degrees, so
    the colour the loop assigns is [COLOR_DOMAIN_UP], the colour the
    arrow got at creation; the DOWN and gray cases never occur. *)
Theorem arrows_stay_up (rnd : nat -> nat -> R) (w : world) :
  uniform_draws rnd -> reachable rnd w ->
  Forall (fun st =>
            radians (-26) <= current_angle_rad st <= radians 5 /\
            domain_color st = COLOR_DOMAIN_UP /\
            initial_color (original_angle_rad st) = COLOR_DOMAIN_UP)
         (domain_states w).
Proof.
  intros Hrnd Hw.
  eapply Forall_impl; [| exact (reachable_both rnd w Hrnd Hw)].
  intros st [Hc Hfl].
  pose proof (flight_current_range st Hc Hfl) as Hr.
  repeat apply conj; try apply Hr.
  - now apply domain_color_up.
  - unfold initial_color. destruct Hfl as [Ho _].
    assert (Hcos : 1 / 2 <= cos (original_angle_rad st)).
    { apply cos_above_half. unfold radians in Ho. pose proof PI_pos. lra. }
    assert (E : Rgtb (cos (original_angle_rad st)) 0 = true)
      by (apply Rgtb_true; lra).
    now rewrite E.
Qed.

Lemma arrows_stay_up_witness :
  Forall (fun st =>
            radians (-26) <= current_angle_rad st <= radians 5 /\
            domain_color st = COLOR_DOMAIN_UP /\
            initial_color (original_angle_rad st) = COLOR_DOMAIN_UP)
         (domain_states first_pass_world).
Proof.
  exact (arrows_stay_up rnd0 first_pass_world rnd0_uniform
           first_pass_world_reachable).
Defined.

(** X3: the arrow is only turned, within the y-z plane: whatever the
    state, its x component is 0 and its length is 0.8 domain pitches. *)
Theorem arrow_keeps_its_length (st : domain_state) :
  fst (fst (domain_axis st)) = 0 /\
  snd (fst (domain_axis st)) * snd (fst (domain_axis st))
  + snd (domain_axis st) * snd (domain_axis st)
  = (DOMAIN_SIZE * 0.8) * (DOMAIN_SIZE * 0.8).
Proof.
  unfold domain_axis. cbn [fst snd]. split; [reflexivity |].
  pose proof (sin2_cos2 (current_angle_rad st)) as H.
  unfold Rsqr in H.
  replace (DOMAIN_SIZE * 0.8 * cos (current_angle_rad st) *
           (DOMAIN_SIZE * 0.8 * cos (current_angle_rad st)) +
           DOMAIN_SIZE * 0.8 * sin (current_angle_rad st) *
           (DOMAIN_SIZE * 0.8 * sin (current_angle_rad st)))
    with ((DOMAIN_SIZE * 0.8) * (DOMAIN_SIZE * 0.8)
          * (sin (current_angle_rad st) * sin (current_angle_rad st)
             + cos (current_angle_rad st) * cos (current_angle_rad st)))
    by ring.
  rewrite H. ring.
Qed.

(** * The read-out in reachable states *)

Lemma accumulate_bounded (acc : R * nat) (st : domain_state) :
  within_max st ->
  fst acc <= 100 * INR (snd acc) ->
  fst (accumulate acc st) <= 100 * INR (snd (accumulate acc st)).
Proof.
  intros Hw Hacc. unfold accumulate.
  destruct (is_flipped st) eqn:Hf; [| exact Hacc].
  Rcase (Rgtb (Rabs (max_rotation_rad st - original_angle_rad st)) (radians 1))
        Hmp; [| exact Hacc].
  cbn [fst snd]. rewrite S_INR.
  assert (Hpos : 0 < Rabs (max_rotation_rad st - original_angle_rad st)).
  { unfold radians in Hmp. pose proof PI_pos. lra. }
  specialize (Hw Hf).
  assert (Rabs (current_angle_rad st - original_angle_rad st)
          / Rabs (max_rotation_rad st - original_angle_rad st) <= 1).
  { apply Rmult_le_reg_r with (Rabs (max_rotation_rad st - original_angle_rad st));
      [exact Hpos |].
    unfold Rdiv. rewrite Rmult_assoc, Rinv_l by lra. lra. }
  lra.
Qed.

Lemma fold_accumulate_bounded (sts : list domain_state) (acc : R * nat) :
  Forall within_max sts ->
  fst acc <= 100 * INR (snd acc) ->
  fst (fold_left accumulate sts acc)
  <= 100 * INR (snd (fold_left accumulate sts acc)).
Proof.
  intros Hall. revert acc.
  induction Hall as [| st sts Hst Hall IH]; intros acc Hacc; [exact Hacc |].
  cbn [fold_left]. apply IH. now apply accumulate_bounded.
Qed.

Lemma avg_rotation_perc_le_100 (sts : list domain_state) :
  Forall within_max sts -> avg_rotation_perc sts <= 100.
Proof.
  intros Hall. unfold avg_rotation_perc.
  assert (Hb := fold_accumulate_bounded sts (0, 0%nat) Hall).
  cbn [fst snd INR] in Hb. specialize (Hb ltac:(lra)).
  destruct (Nat.ltb 0 (snd (fold_left accumulate sts (0, 0%nat)))) eqn:Hact;
    [| lra].
  apply Nat.ltb_lt in Hact. apply lt_0_INR in Hact.
  apply Rmult_le_reg_r with (INR (snd (fold_left accumulate sts (0, 0%nat))));
    [exact Hact |].
  unfold Rdiv. rewrite Rmult_assoc, Rinv_l by lra. lra.
Qed.

Lemma flight_within_max (st : domain_state) : flight_inv st -> within_max st.
Proof.
  intros [_ Hfl] Hf. destruct (Hfl Hf) as (_ & Hcur & _).
  rewrite !Rabs_left1 by lra. lra.
Qed.

(** In a reachable state the loop of the read-out counts exactly the
    flipped domains. *)
Lemma accumulate_counts_flipped (acc : R * nat) (st : domain_state) :
  flight_inv st ->
  snd (accumulate acc st)
  = (snd acc + (if is_flipped st then 1 else 0))%nat.
Proof.
  intros [_ Hfl]. unfold accumulate.
  destruct (is_flipped st) eqn:Hf; [| cbn; lia].
  destruct (Hfl eq_refl) as (Hmax & _ & _).
  assert (E : Rgtb (Rabs (max_rotation_rad st - original_angle_rad st))
                   (radians 1) = true).
  { apply Rgtb_true. unfold radians in *. pose proof PI_pos.
    destruct Hmax as [-> | ->]; rewrite Rabs_left by lra; lra. }
  rewrite E. cbn [snd]. lia.
Qed.

Lemma fold_accumulate_counts (sts : list domain_state) (acc : R * nat) :
  Forall flight_inv sts ->
  snd (fold_left accumulate sts acc)
  = (snd acc + length (filter is_flipped sts))%nat.
Proof.
  intros Hall. revert acc.
  induction Hall as [| st sts Hst Hall IH]; intros acc; [cbn; lia |].
  cbn [fold_left filter]. rewrite IH, accumulate_counts_flipped by exact Hst.
  destruct (is_flipped st); cbn [length]; lia.
Qed.

(** X4: in every reachable state the average completion lies in
    [0, 100], so the clamp of the field estimate never cuts: the
    estimate is the plain linear interpolation between 10 nT and the
    ceiling; and the domains averaged over are exactly the flipped ones. *)
Theorem readout_never_clamps (rnd : nat -> nat -> R) (w : world)
    (tribo : bool) :
  uniform_draws rnd -> reachable rnd w ->
  0 <= avg_rotation_perc (domain_states w) <= 100 /\
  simulated_delta_B_nT tribo (domain_states w)
  = base_nT + (current_max_nT tribo - base_nT)
              * (avg_rotation_perc (domain_states w) / 100) /\
  snd (fold_left accumulate (domain_states w) (0, 0%nat))
  = length (filter is_flipped (domain_states w)).
Proof.
  intros Hrnd Hw.
  pose proof (reachable_flight rnd w Hrnd Hw) as Hfl.
  assert (Hle : avg_rotation_perc (domain_states w) <= 100).
  { apply avg_rotation_perc_le_100.
    eapply Forall_impl; [| exact Hfl]. apply flight_within_max. }
  pose proof (avg_rotation_perc_nonneg (domain_states w)) as Hge.
  pose proof (base_le_current_max tribo) as Hmax.
  repeat apply conj; try assumption.
  - unfold simulated_delta_B_nT, interpolated_delta_B_nT.
    replace (avg_rotation_perc (domain_states w) / 100.0)
      with (avg_rotation_perc (domain_states w) / 100) by lra.
    rewrite Rmin_left by nra. apply Rmax_right. nra.
  - now rewrite fold_accumulate_counts.
Qed.

Lemma readout_never_clamps_witness :
  0 <= avg_rotation_perc (domain_states first_pass_world) <= 100.
Proof.
  exact (proj1 (readout_never_clamps rnd0 first_pass_world false rnd0_uniform
                  first_pass_world_reachable)).
Defined.

(** X5: the read-out announces what the trigger does.  In a reachable
    state, triggering a domain at rest under the current boost flag
    turns its target by exactly the printed "expected max rotation"
    (to the negative side) and starts the printed "expected retention
    time". *)
Theorem readout_announces_the_trigger (rnd : nat -> nat -> R) (w : world)
    (c : nat) (st : domain_state) :
  uniform_draws rnd -> reachable rnd w ->
  nth_error (domain_states w) c = Some st -> tag_of st = AtRest ->
  original_angle_rad st - target_angle_rad (trigger (tribo_on w) st)
  = radians (max_rot_deg (tribo_on w)) /\
  retention_timer (trigger (tribo_on w) st) = ret_time_s (tribo_on w) /\
  current_angle_rad (trigger (tribo_on w) st) = original_angle_rad st.
Proof.
  intros Hrnd Hw Hst Htag. apply tag_at_rest in Htag.
  pose proof (reachable_both rnd w Hrnd Hw) as Hall.
  apply nth_error_In in Hst.
  destruct (proj1 (Forall_forall _ _) Hall st Hst) as [Hc [Ho _]].
  destruct Hc as (_ & _ & _ & _ & _ & Hrest).
  destruct (Hrest Htag) as (Hcur & _).
  rewrite trigger_small by exact Ho. cbn.
  repeat apply conj; try reflexivity; try assumption.
  unfold max_rot_deg. destruct (tribo_on w).
  - rewrite tribo_magnitude. lra.
  - unfold MAX_ROTATION_STRAIN_DEG. lra.
Qed.

Lemma readout_announces_the_trigger_witness :
  original_angle_rad (new_state (initial_angle rnd0 0 0))
  - target_angle_rad
      (trigger (tribo_on started_world) (new_state (initial_angle rnd0 0 0)))
  = radians (max_rot_deg (tribo_on started_world)).
Proof.
  exact (proj1 (readout_announces_the_trigger rnd0 started_world 0
                  (new_state (initial_angle rnd0 0 0)) rnd0_uniform
                  started_world_reachable eq_refl eq_refl)).
Defined.

(** * Holding: the approach and the countdown *)

(** While retention is left, the timer branch leaves the angle alone. *)
Lemma retain_keeps_current (dt : R) (st : domain_state) :
  is_flipped st = true -> retention_timer st > 0 ->
  current_angle_rad (retain_or_relax dt st) = current_angle_rad st.
Proof.
  intros Hf Ht.
  destruct (Rle_dec (retention_timer st - dt) 0) as [Hout | Hin].
  - now rewrite retain_expiring.
  - rewrite retain_counting by (assumption || lra). reflexivity.
Qed.

(** X6: a Holding domain farther than 0.5 degrees from its target moves,
    in one iteration, by exactly 20% of the shortest-path residual, which
    leaves 80% of it; within 0.5 degrees it keeps its angle. *)
Theorem holding_step (dt : R) (st : domain_state) :
  tag_of st = Holding ->
  (Rabs (current_angle_rad st - target_angle_rad st) > epsilon ->
     current_angle_rad (update_domain dt st)
     = normalize (current_angle_rad st
                  + normalize (target_angle_rad st - current_angle_rad st)
                    * 0.2) /\
     normalize (target_angle_rad st - current_angle_rad (update_domain dt st))
     = 0.8 * normalize (target_angle_rad st - current_angle_rad st)) /\
  (Rabs (current_angle_rad st - target_angle_rad st) <= epsilon ->
     current_angle_rad (update_domain dt st) = current_angle_rad st).
Proof.
  intros Htag. apply tag_holding in Htag. destruct Htag as [Hf Ht].
  destruct (rotate_frame st) as (_ & Htm & _ & Hfl & _).
  assert (Hkeep : current_angle_rad (update_domain dt st)
                  = current_angle_rad (rotate_to_target st)).
  { unfold update_domain. apply retain_keeps_current.
    - now rewrite Hfl.
    - now rewrite Htm. }
  rewrite Hkeep. split.
  - intros Hfar. rewrite rotate_far by assumption. cbn [current_angle_rad].
    split; [reflexivity |].
    rewrite residual_after_step by lra. lra.
  - intros Hnear. now rewrite rotate_near.
Qed.

Lemma holding_step_witness :
  normalize (radians (-15)
             - current_angle_rad (update_domain dt_demo (holding_at 0 2.0)))
  = 0.8 * normalize (radians (-15) - radians 0).
Proof.
  assert (Htag : tag_of (holding_at 0 2.0) = Holding).
  { apply tag_holding. cbn. split; [reflexivity | lra]. }
  assert (Hfar : Rabs (radians 0 - radians (-15)) > epsilon).
  { rewrite radians_minus, Rabs_radians. apply radians_lt.
    rewrite Rabs_pos_eq; lra. }
  exact (proj2 (proj1 (holding_step dt_demo (holding_at 0 2.0) Htag) Hfar)).
Defined.

Lemma update_holding_counting (dt : R) (st : domain_state) :
  is_flipped st = true -> retention_timer st > 0 ->
  retention_timer st - dt > 0 ->
  is_flipped (update_domain dt st) = true /\
  retention_timer (update_domain dt st) = retention_timer st - dt /\
  target_angle_rad (update_domain dt st) = target_angle_rad st /\
  max_rotation_rad (update_domain dt st) = max_rotation_rad st /\
  original_angle_rad (update_domain dt st) = original_angle_rad st.
Proof.
  intros Hf Ht Hleft. unfold update_domain.
  destruct (rotate_frame st) as (Htg & Htm & Ho & Hfl & Hmx).
  rewrite retain_counting by (rewrite ?Hfl, ?Htm; lra || assumption).
  cbn. now rewrite Htg, Htm, Hmx, Ho.
Qed.

Lemma update_holding_expiring (dt : R) (st : domain_state) :
  is_flipped st = true -> retention_timer st > 0 ->
  retention_timer st - dt <= 0 ->
  is_flipped (update_domain dt st) = true /\
  retention_timer (update_domain dt st) = 0 /\
  target_angle_rad (update_domain dt st) = original_angle_rad st.
Proof.
  intros Hf Ht Hout. unfold update_domain.
  destruct (rotate_frame st) as (Htg & Htm & Ho & Hfl & Hmx).
  rewrite retain_expiring by (rewrite ?Hfl, ?Htm; lra || assumption).
  cbn. now rewrite Ho.
Qed.

(** * Relaxing never recedes *)

Lemma normalize_0 : normalize 0 = 0.
Proof. apply normalize_id. unfold in_range. pose proof PI_pos. lra. Qed.

(** X8: a Relaxing domain (its target already reset to the original
    angle) never moves away from its original angle: after an iteration
    the shortest-path distance is at most what it was, and the domain is
    Relaxing or at rest. *)
Theorem relaxing_never_recedes (dt : R) (st : domain_state) :
  tag_of st = Relaxing ->
  target_angle_rad st = original_angle_rad st ->
  Rabs (normalize (original_angle_rad st
                   - current_angle_rad (update_domain dt st)))
  <= Rabs (normalize (original_angle_rad st - current_angle_rad st)) /\
  original_angle_rad (update_domain dt st) = original_angle_rad st /\
  (tag_of (update_domain dt st) = Relaxing \/
   tag_of (update_domain dt st) = AtRest).
Proof.
  intros Htag Htgt. apply tag_relaxing in Htag. destruct Htag as [Hf Ht].
  split; [| split; [apply update_domain_original |]].
  - set (r := normalize (original_angle_rad st - current_angle_rad st)).
    assert (Hzero : Rabs (normalize (original_angle_rad st
                                     - original_angle_rad st)) <= Rabs r).
    { replace (original_angle_rad st - original_angle_rad st) with 0 by lra.
      rewrite normalize_0, Rabs_R0. apply Rabs_pos. }
    destruct (Rle_dec (Rabs (current_angle_rad st - original_angle_rad st))
                      (radians 0.5)) as [Hnear | Hfar].
    + unfold update_domain.
      rewrite rotate_near by (rewrite Htgt; exact Hnear).
      rewrite relax_near by assumption. exact Hzero.
    + destruct (Rle_dec
                  (Rabs (normalize (current_angle_rad st
                                    + normalize (original_angle_rad st
                                                 - current_angle_rad st) * 0.2)
                         - original_angle_rad st))
                  (radians 0.5)) as [Hnear1 | Hfar1].
      * rewrite update_relaxing_near by (assumption || lra). exact Hzero.
      * rewrite update_relaxing_far by (assumption || lra).
        cbn [current_angle_rad]. fold r.
        replace (0.24 * r) with (r * 0.24) by ring. unfold r.
        rewrite residual_after_step by lra. fold r.
        rewrite Rabs_mult, (Rabs_pos_eq (1 - 0.24)) by lra.
        pose proof (Rabs_pos r). lra.
  - destruct (is_flipped (update_domain dt st)) eqn:Hf'.
    + left. apply tag_relaxing. split; [exact Hf' |].
      now rewrite (proj2 (update_relaxing_frame dt st Hf Ht)).
    + right. now apply tag_at_rest.
Qed.

Lemma relaxing_never_recedes_witness :
  Rabs (normalize (0 - current_angle_rad
                         (update_domain dt_demo (relaxing_at (-15)))))
  <= Rabs (normalize (0 - radians (-15))).
Proof.
  assert (Htag : tag_of (relaxing_at (-15)) = Relaxing).
  { apply tag_relaxing. cbn. split; [reflexivity | lra]. }
  exact (proj1 (relaxing_never_recedes dt_demo (relaxing_at (-15)) Htag
                  eq_refl)).
Defined.

(** * The controls and the domains in flight *)

(** X9: an iteration treats a flipped domain the same whatever the
    controls are.  Two worlds that hold the same flipped state at an
    index (and may differ in [saw_on], [tribo_on], the SAW position and
    everything else) hold the same state there after an iteration; in
    particular the boost flag is used at the trigger only. *)
Theorem controls_do_not_reach_flipped_domains
    (dt : R) (w w' : world) (c : nat) (p p' : R) (st : domain_state) :
  nth_error (domains w) c = Some p ->
  nth_error (domain_states w) c = Some st ->
  nth_error (domains w') c = Some p' ->
  nth_error (domain_states w') c = Some st ->
  tag_of st <> AtRest ->
  nth_error (domain_states (tick dt w)) c = Some (update_domain dt st) /\
  nth_error (domain_states (tick dt w')) c = Some (update_domain dt st).
Proof.
  intros Hp Hst Hp' Hst' Htag. apply not_at_rest in Htag.
  rewrite (tick_nth dt w c p st Hp Hst), (tick_nth dt w' c p' st Hp' Hst').
  now rewrite !cell_tick_flipped.
Qed.

Lemma controls_do_not_reach_flipped_domains_witness :
  nth_error (domain_states (tick dt_demo first_pass_world)) 0
  = Some (update_domain dt_demo (holding_at (-3) (2.0 - dt_demo))) /\
  nth_error (domain_states (tick dt_demo (toggle_tribo
                                            (toggle_saw first_pass_world)))) 0
  = Some (update_domain dt_demo (holding_at (-3) (2.0 - dt_demo))).
Proof.
  apply (controls_do_not_reach_flipped_domains dt_demo first_pass_world
           (toggle_tribo (toggle_saw first_pass_world)) 0
           (domain_y_pos 0) (domain_y_pos 0)).
  - reflexivity.
  - exact first_pass_cell_0.
  - reflexivity.
  - exact first_pass_cell_0.
  - apply not_at_rest. reflexivity.
Defined.

(** X10: the buttons never touch the simulation.  Any sequence of clicks
    leaves the domains, their states and the SAW loop variable as they
    are. *)
Theorem clicks_leave_the_simulation (evs : list event) (w : world) :
  (forall dt : R, ~ In (Tick dt) evs) ->
  domains (run evs w) = domains w /\
  domain_states (run evs w) = domain_states w /\
  saw_visual_y_pos (run evs w) = saw_visual_y_pos w.
Proof.
  revert w. induction evs as [| e evs IH]; intros w Hno; [now repeat split |].
  rewrite run_cons.
  assert (Hno' : forall dt : R, ~ In (Tick dt) evs).
  { intros dt Hin. apply (Hno dt). now right. }
  destruct (IH (step e w) Hno') as (H1 & H2 & H3).
  rewrite H1, H2, H3.
  destruct e as [dt | |]; [| now repeat split | now repeat split].
  exfalso. apply (Hno dt). now left.
Qed.

Lemma clicks_leave_the_simulation_witness :
  domain_states (run [ToggleSaw; ToggleTribo; ToggleSaw] first_pass_world)
  = domain_states first_pass_world.
Proof.
  apply (clicks_leave_the_simulation [ToggleSaw; ToggleTribo; ToggleSaw]
           first_pass_world).
  intros dt [H | [H | [H | []]]]; discriminate.
Defined.

(** X11: clicking the boost button twice restores the world. *)
Theorem toggle_tribo_twice (w : world) : toggle_tribo (toggle_tribo w) = w.
Proof.
  destruct w. unfold toggle_tribo. cbn. now rewrite negb_involutive.
Qed.

(** * Where the band is drawn *)

(** X12: in every reachable state the band is visible exactly when the
    SAW is on; and while it is on, the band is drawn at the start of the
    film (right after the click) or at the position the loop variable
    had before the reset test, so the loop variable is the drawn
    position passed through the reset. *)
Theorem band_is_drawn_where_the_saw_is (rnd : nat -> nat -> R) (w : world) :
  reachable rnd w ->
  saw_visual_visible w = saw_on w /\
  (saw_on w = true ->
     saw_visual_pos_z w = saw_start \/
     saw_visual_y_pos w = wrap (saw_visual_pos_z w)).
Proof.
  intros Hw. induction Hw as [| e w Hw [IHv IHz]].
  - split; [reflexivity | discriminate].
  - destruct e as [dt | |]; cbn [step].
    + unfold tick. destruct (saw_on w) eqn:Hon; cbn.
      * split; [exact IHv | intros _; now right].
      * split; [exact IHv | discriminate].
    + unfold toggle_saw. cbn. split; [reflexivity |].
      intros Hon. rewrite Hon. now left.
    + unfold toggle_tribo. cbn. split; [exact IHv | exact IHz].
Qed.

Lemma band_is_drawn_where_the_saw_is_witness :
  saw_visual_visible first_pass_world = saw_on first_pass_world.
Proof.
  exact (proj1 (band_is_drawn_where_the_saw_is rnd0 first_pass_world
                  first_pass_world_reachable)).
Defined.

(** * The SAW stays on its track *)

Lemma step_forward_bounds (e : event) (w : world) :
  forward e ->
  saw_start <= saw_visual_y_pos w <= FILM_LENGTH + saw_visual_thickness / 2 ->
  saw_start <= saw_visual_y_pos (step e w)
  <= FILM_LENGTH + saw_visual_thickness / 2.
Proof.
  intros Hfw Hb. destruct e as [dt | |]; cbn [step]; try exact Hb.
  cbn in Hfw. rewrite tick_y_pos. destruct (saw_on w); [| exact Hb].
  split; [| apply wrap_bounded].
  unfold wrap. destruct (Rgtb _ _).
  - unfold saw_start. lra.
  - unfold advanced. unfold saw_speed, FILM_LENGTH. nra.
Qed.

(** X13: when time does not run backwards, the SAW loop variable never
    leaves the interval from the start position (-12.5 nm) to the reset
    threshold (1012.5 nm), whatever iterations and clicks occur. *)
Theorem saw_stays_on_track (rnd : nat -> nat -> R) (evs : list event) :
  Forall forward evs ->
  saw_start <= saw_visual_y_pos (run evs (initial_world rnd))
  <= FILM_LENGTH + saw_visual_thickness / 2.
Proof.
  intros Hfw.
  assert (Hgen : forall w,
             saw_start <= saw_visual_y_pos w
             <= FILM_LENGTH + saw_visual_thickness / 2 ->
             saw_start <= saw_visual_y_pos (run evs w)
             <= FILM_LENGTH + saw_visual_thickness / 2).
  { induction Hfw as [| e evs He Hfw IH]; intros w Hb; [exact Hb |].
    rewrite run_cons. apply IH. now apply step_forward_bounds. }
  apply Hgen. cbn. unfold_params. lra.
Qed.

Lemma saw_stays_on_track_witness :
  saw_start
  <= saw_visual_y_pos (run [ToggleSaw; Tick dt_demo] (initial_world rnd0))
  <= FILM_LENGTH + saw_visual_thickness / 2.
Proof.
  apply (saw_stays_on_track rnd0 [ToggleSaw; Tick dt_demo]).
  repeat constructor. cbn. unfold dt_demo. lra.
Defined.

(** * The SAW skips no domain *)

Lemma trigger_then_update_flipped (dt : R) (tribo : bool) (st : domain_state) :
  is_flipped (update_domain dt (trigger tribo st)) = true.
Proof.
  set (s := trigger tribo st).
  assert (Hf : is_flipped s = true) by reflexivity.
  assert (Ht : retention_timer s > 0).
  { unfold s, trigger. cbn. destruct tribo; unfold_params; lra. }
  destruct (Rle_dec (retention_timer s - dt) 0) as [Hout | Hin].
  - now destruct (update_holding_expiring dt s Hf Ht Hout) as (H & _).
  - destruct (update_holding_counting dt s Hf Ht) as (H & _); [lra | exact H].
Qed.

Lemma run_ticks_saw_on (n : nat) (dt : R) (w : world) :
  saw_on (run (repeat (Tick dt) n) w) = saw_on w.
Proof.
  apply run_saw_on. intros Hin. apply repeat_spec in Hin. discriminate.
Qed.

Lemma first_overlap (dt : R) (w : world) (p : R) (n : nat) :
  saw_on w = true ->
  0 <= saw_speed * dt < saw_visual_size_z + DOMAIN_SIZE ->
  p + (saw_visual_size_z / 2 + DOMAIN_SIZE / 2)
  <= FILM_LENGTH + saw_visual_thickness / 2 ->
  saw_visual_y_pos w <= p - (saw_visual_size_z / 2 + DOMAIN_SIZE / 2) ->
  saw_visual_y_pos w + INR n * (saw_speed * dt)
  > p - (saw_visual_size_z / 2 + DOMAIN_SIZE / 2) ->
  exists k : nat,
    (k < n)%nat /\
    saw_over_domain p (advanced dt (run (repeat (Tick dt) k) w)) = true.
Proof.
  intros Hon Hstep Hfilm Hbefore. induction n as [| n IH]; intros Hafter.
  - cbn in Hafter. lra.
  - destruct (Rle_dec (saw_visual_y_pos w + INR n * (saw_speed * dt))
                      (p - (saw_visual_size_z / 2 + DOMAIN_SIZE / 2)))
      as [Hnot | Hyes].
    + exists n. split; [lia |].
      apply saw_over_domain_true. unfold advanced.
      rewrite y_pos_after_ticks by (assumption || lra).
      rewrite S_INR in Hafter. lra.
    + destruct IH as (k & Hk & Hov); [lra |].
      exists k. split; [lia | exact Hov].
Qed.

(** X14: with a step shorter than band width plus domain pitch (50 nm,
    i.e. a timestep below 0.25 s) the SAW cannot jump over a domain.
    If the SAW is on and has not yet reached a domain position [p] on
    the film, and [n] steps would carry it past the near edge of [p],
    then in one of these [n] iterations the overlap test succeeds for
    [p], and a domain at [p] that is at rest at that moment is flipped
    by that iteration. *)
Theorem saw_skips_no_domain (dt : R) (w : world) (p : R) (n : nat) :
  saw_on w = true ->
  0 <= saw_speed * dt < saw_visual_size_z + DOMAIN_SIZE ->
  p + (saw_visual_size_z / 2 + DOMAIN_SIZE / 2)
  <= FILM_LENGTH + saw_visual_thickness / 2 ->
  saw_visual_y_pos w <= p - (saw_visual_size_z / 2 + DOMAIN_SIZE / 2) ->
  saw_visual_y_pos w + INR n * (saw_speed * dt)
  > p - (saw_visual_size_z / 2 + DOMAIN_SIZE / 2) ->
  exists k : nat,
    (k < n)%nat /\
    saw_over_domain p (advanced dt (run (repeat (Tick dt) k) w)) = true /\
    forall (c : nat) (st : domain_state),
      nth_error (domains (run (repeat (Tick dt) k) w)) c = Some p ->
      nth_error (domain_states (run (repeat (Tick dt) k) w)) c = Some st ->
      tag_of st = AtRest ->
      exists st' : domain_state,
        nth_error (domain_states (tick dt (run (repeat (Tick dt) k) w))) c
        = Some st' /\ tag_of st' <> AtRest.
Proof.
  intros Hon Hstep Hfilm Hbefore Hafter.
  destruct (first_overlap dt w p n Hon Hstep Hfilm Hbefore Hafter)
    as (k & Hk & Hov).
  exists k. split; [exact Hk |]. split; [exact Hov |].
  intros c st Hp Hst Htag. apply tag_at_rest in Htag.
  eexists. split; [apply (tick_nth dt _ c p st Hp Hst) |].
  apply not_at_rest. unfold cell_tick.
  rewrite run_ticks_saw_on, Hon.
  rewrite interact_triggers by assumption.
  apply trigger_then_update_flipped.
Qed.

Lemma saw_skips_no_domain_witness :
  exists k : nat,
    (k < 1)%nat /\
    saw_over_domain (domain_y_pos 0)
      (advanced dt_demo (run (repeat (Tick dt_demo) k) started_world)) = true.
Proof.
  destruct (saw_skips_no_domain dt_demo started_world (domain_y_pos 0) 1)
    as (k & Hk & Hov & _).
  - reflexivity.
  - unfold_params. lra.
  - rewrite domain_y_pos_0. unfold_params. lra.
  - rewrite domain_y_pos_0. unfold started_world.
    cbn [toggle_saw initial_world saw_visual_y_pos]. unfold_params. lra.
  - rewrite domain_y_pos_0. unfold started_world.
    cbn [toggle_saw initial_world saw_visual_y_pos INR]. unfold_params. lra.
  - exists k. split; [exact Hk | exact Hov].
Defined.

(** * When the read-out is refreshed *)

(** The flag is set for a domain exactly when it takes the rotation
    step or is still flipped after the iteration. *)
Lemma domain_active_spec (dt : R) (st : domain_state) :
  domain_active dt st
  = (is_flipped st
     && Rgtb (Rabs (current_angle_rad st - target_angle_rad st))
             (radians 0.5))
    || is_flipped (update_domain dt st).
Proof.
  unfold domain_active, update_domain. f_equal.
  destruct (rotate_frame st) as (_ & Htm & _ & Hfl & _).
  set (s1 := rotate_to_target st) in *.
  unfold retain_or_relax.
  destruct (is_flipped s1) eqn:E; cbn [andb]; [| now rewrite E].
  Rcase (Rgtb (retention_timer s1) 0) Hpos.
  - destruct (Rleb (retention_timer s1 - dt) 0); cbn; congruence.
  - Rcase (Rleb (retention_timer s1) 0) Hexp; [| lra].
    destruct (Rgtb _ _); cbn; congruence.
Qed.

Lemma in_paired_states (ds : list R) (sts : list domain_state)
    (st : domain_state) :
  In st (map snd (combine ds sts)) <->
  exists (c : nat) (p : R),
    nth_error ds c = Some p /\ nth_error sts c = Some st.
Proof.
  revert sts. induction ds as [| d ds IH]; intros [| s sts]; cbn.
  - split; [intros [] | intros (c & p & H & _); now destruct c].
  - split; [intros [] | intros (c & p & H & _); now destruct c].
  - split; [intros [] | intros (c & p & _ & H); now destruct c].
  - split.
    + intros [<- | Hin].
      * now exists 0%nat, d.
      * apply IH in Hin. destruct Hin as (c & p & Hp & Hs).
        now exists (S c), p.
    + intros ([| c] & p & Hp & Hs).
      * left. cbn in Hs. congruence.
      * right. apply IH. now exists c, p.
Qed.

Lemma refreshes_spec (dt : R) (w : world) :
  refreshes dt w = true <->
  saw_on w = true \/
  exists (c : nat) (p : R) (st : domain_state),
    nth_error (domains w) c = Some p /\
    nth_error (domain_states w) c = Some st /\
    ((is_flipped st = true /\
      Rabs (current_angle_rad st - target_angle_rad st) > epsilon) \/
     tag_of (update_domain dt st) <> AtRest).
Proof.
  unfold refreshes, any_domain_active, after_interaction.
  rewrite orb_true_iff.
  destruct (saw_on w) eqn:Hon.
  - split; intros _; [now left | now right].
  - rewrite existsb_exists. split.
    + intros [(st & Hin & Hact) | Habs]; [| discriminate]. right.
      apply in_paired_states in Hin. destruct Hin as (c & p & Hp & Hs).
      exists c, p, st. split; [exact Hp |]. split; [exact Hs |].
      rewrite domain_active_spec in Hact. apply orb_true_iff in Hact.
      destruct Hact as [Hrot | Hfl].
      * left. apply andb_true_iff in Hrot. destruct Hrot as [Hf Hfar].
        split; [exact Hf | now apply Rgtb_true in Hfar].
      * right. now apply not_at_rest.
    + intros [Habs | (c & p & st & Hp & Hs & Hact)]; [discriminate |]. left.
      exists st. split.
      * apply in_paired_states. now exists c, p.
      * rewrite domain_active_spec. apply orb_true_iff.
        destruct Hact as [[Hf Hfar] | Htag].
        -- left. rewrite Hf. cbn [andb]. now apply Rgtb_true.
        -- right. now apply not_at_rest.
Qed.

(** X15: an iteration refreshes the read-out exactly when the SAW is on,
    or some domain takes the 20% rotation step, or some domain is still
    flipped after the iteration. *)
Theorem refresh_iff (dt : R) (w : world) :
  refreshes dt w = true <->
  saw_on w = true \/
  exists (c : nat) (p : R) (st : domain_state),
    nth_error (domains w) c = Some p /\
    nth_error (domain_states w) c = Some st /\
    ((is_flipped st = true /\
      Rabs (current_angle_rad st - target_angle_rad st) > epsilon) \/
     tag_of (update_domain dt st) <> AtRest).
Proof. apply refreshes_spec. Qed.

Lemma map_states_at_rest (dt : R) (ds : list R) (sts : list domain_state) :
  length ds = length sts ->
  Forall (fun st => tag_of st = AtRest) sts ->
  map_states (fun _ => update_domain dt) ds sts = sts.
Proof.
  unfold map_states. revert sts.
  induction ds as [| d ds IH]; intros [| s sts] Hlen Hall; cbn;
    try reflexivity; try discriminate.
  inversion Hall as [| ? ? Hs Hrest]; subst.
  rewrite IH by (cbn in Hlen; lia || assumption).
  rewrite update_domain_at_rest by now apply tag_at_rest.
  reflexivity.
Qed.

(** X16: an idle program is at a fixed point.  With the SAW off and
    every domain at rest, an iteration changes nothing in the world,
    does not refresh the read-out, and leaves on screen what was there. *)
Theorem idle_is_a_fixed_point (dt : R) (w : world) (shown : R * R) :
  saw_on w = false ->
  length (domains w) = length (domain_states w) ->
  Forall (fun st => tag_of st = AtRest) (domain_states w) ->
  tick dt w = w /\ refreshes dt w = false /\ shown_after dt w shown = shown.
Proof.
  intros Hoff Hlen Hall.
  assert (Hno : refreshes dt w = false).
  { destruct (refreshes dt w) eqn:Href; [| reflexivity].
    apply refreshes_spec in Href.
    destruct Href as [Hon | (c & p & st & _ & Hs & Hact)]; [congruence |].
    apply nth_error_In in Hs.
    pose proof (proj1 (Forall_forall _ _) Hall st Hs) as Htag.
    apply tag_at_rest in Htag.
    destruct Hact as [[Hf _] | Hafter]; [congruence |].
    rewrite update_domain_at_rest in Hafter by exact Htag.
    exfalso. apply Hafter. now apply tag_at_rest. }
  repeat apply conj.
  - unfold tick. rewrite Hoff. rewrite map_states_at_rest by assumption.
    destruct w; cbn in *. now subst.
  - exact Hno.
  - unfold shown_after. now rewrite Hno.
Qed.

Lemma initial_states_at_rest (rnd : nat -> nat -> R) :
  Forall (fun st => tag_of st = AtRest) (initial_domain_states rnd).
Proof.
  unfold initial_domain_states. apply Forall_forall. intros st Hin.
  apply in_flat_map in Hin. destruct Hin as (i & _ & Hin).
  apply in_map_iff in Hin. now destruct Hin as (j & <- & _).
Qed.

Lemma idle_is_a_fixed_point_witness :
  tick dt_demo (initial_world rnd0) = initial_world rnd0.
Proof.
  apply (idle_is_a_fixed_point dt_demo (initial_world rnd0) (0, base_nT)).
  - reflexivity.
  - apply (initial_world_inv rnd0 rnd0_uniform).
  - apply initial_states_at_rest.
Defined.

(** * The lattice *)

Lemma nth_error_rows {A : Type} (row : nat -> list A) (m : nat) :
  (forall i, length (row i) = m) ->
  forall (n s i j : nat),
    (i < n)%nat -> (j < m)%nat ->
    nth_error (flat_map row (seq s n)) (i * m + j)
    = nth_error (row (s + i)%nat) j.
Proof.
  intros Hrow. induction n as [| n IH]; intros s i j Hi Hj; [lia |].
  cbn [seq flat_map]. destruct i as [| i].
  - rewrite nth_error_app1 by (rewrite Hrow; lia).
    now rewrite Nat.add_0_r.
  - rewrite nth_error_app2 by (rewrite Hrow; lia).
    rewrite Hrow.
    replace (S i * m + j - m)%nat with (i * m + j)%nat by lia.
    rewrite IH by lia. f_equal. f_equal. lia.
Qed.

Lemma nth_error_map_seq {A : Type} (f : nat -> A) (m j : nat) :
  (j < m)%nat -> nth_error (map f (seq 0 m)) j = Some (f j).
Proof.
  intros Hj. apply map_nth_error.
  rewrite (nth_error_nth' _ 0%nat) by (rewrite length_seq; exact Hj).
  now rewrite seq_nth.
Qed.

Lemma rows_length {A : Type} (row : nat -> list A) (m n s : nat) :
  (forall i, length (row i) = m) ->
  length (flat_map row (seq s n)) = (n * m)%nat.
Proof.
  intros Hrow. revert s. induction n as [| n IH]; intros s; [reflexivity |].
  cbn [seq flat_map]. rewrite length_app, Hrow, IH. lia.
Qed.

(** X17: the creation loop lays the 8 x 40 lattice out column by column
    in two lists that line up: entry [i * 40 + j] of [domains] is the
    arrow at longitudinal position [(j + 0.5) * 25 nm], and the same
    entry of [domain_states] is the fresh state drawn for site [(i, j)];
    both lists have 320 entries. *)
Theorem grid_layout (rnd : nat -> nat -> R) (i j : nat) :
  (i < NUM_DOMAINS_X)%nat -> (j < NUM_DOMAINS_Y)%nat ->
  nth_error (domains (initial_world rnd)) (i * NUM_DOMAINS_Y + j)
  = Some (domain_y_pos j) /\
  nth_error (domain_states (initial_world rnd)) (i * NUM_DOMAINS_Y + j)
  = Some (new_state (initial_angle rnd i j)) /\
  length (domains (initial_world rnd)) = 320%nat /\
  length (domain_states (initial_world rnd)) = 320%nat.
Proof.
  intros Hi Hj. cbn [initial_world domains domain_states].
  unfold initial_domains, initial_domain_states.
  repeat apply conj.
  - rewrite (nth_error_rows _ NUM_DOMAINS_Y) by
      (try (intros; now rewrite length_map, length_seq); assumption).
    now apply nth_error_map_seq.
  - rewrite (nth_error_rows _ NUM_DOMAINS_Y) by
      (try (intros; now rewrite length_map, length_seq); assumption).
    now rewrite nth_error_map_seq.
  - rewrite (rows_length _ NUM_DOMAINS_Y)
      by (intros; now rewrite length_map, length_seq).
    reflexivity.
  - rewrite (rows_length _ NUM_DOMAINS_Y)
      by (intros; now rewrite length_map, length_seq).
    reflexivity.
Qed.

Lemma grid_layout_witness :
  nth_error (domains (initial_world rnd0)) (1 * NUM_DOMAINS_Y + 23)
  = Some (domain_y_pos 23).
Proof.
  apply (grid_layout rnd0 1 23); unfold NUM_DOMAINS_X, NUM_DOMAINS_Y; lia.
Defined.

(** * The band's leading edge and the reset *)

Lemma leading_edge_after_tick (dt : R) (w : world) :
  saw_on w = true ->
  leading_edge (tick dt w)
  = if Rgtb (leading_edge w + saw_speed * dt) spec_wrap_threshold
    then film_start
    else leading_edge w + saw_speed * dt.
Proof.
  intros Hon. unfold leading_edge. rewrite tick_y_pos, Hon.
  unfold wrap, advanced, spec_wrap_threshold, film_start.
  Rcase (Rgtb (saw_visual_y_pos w + saw_speed * dt)
              (FILM_LENGTH + saw_visual_thickness / 2)) Hc.
  - assert (E : Rgtb (saw_visual_y_pos w + saw_visual_thickness / 2
                      + saw_speed * dt)
                     (FILM_LENGTH + saw_visual_thickness) = true)
      by (apply Rgtb_true; lra).
    rewrite E. lra.
  - assert (E : Rgtb (saw_visual_y_pos w + saw_visual_thickness / 2
                      + saw_speed * dt)
                     (FILM_LENGTH + saw_visual_thickness) = false)
      by (apply Rgtb_false; lra).
    rewrite E. lra.
Qed.

(** C6: while [saw_on], an iteration puts the band's leading edge back
    at the start of the film (z = 0) exactly when the advanced leading
    edge exceeds film length plus the full band width, and otherwise
    leaves it at the advanced position; while [saw_on] is false no
    iteration and no click on the boost button moves it. *)
Theorem leading_edge_wraps_past_full_band (dt : R) (w : world) :
  (saw_on w = true ->
     (leading_edge w + saw_speed * dt > FILM_LENGTH + saw_visual_thickness ->
        leading_edge (tick dt w) = film_start) /\
     (leading_edge w + saw_speed * dt <= FILM_LENGTH + saw_visual_thickness ->
        leading_edge (tick dt w) = leading_edge w + saw_speed * dt)) /\
  (saw_on w = false ->
     forall evs : list event, ~ In ToggleSaw evs ->
       leading_edge (run evs w) = leading_edge w).
Proof.
  split.
  - intros Hon. rewrite (leading_edge_after_tick dt w Hon).
    unfold spec_wrap_threshold. split; intros H.
    + apply Rgtb_true in H. now rewrite H.
    + apply Rgtb_false in H. now rewrite H.
  - intros Hoff evs Hno. unfold leading_edge.
    now rewrite run_off_y_pos.
Qed.

(** In the 513th iteration after switching on, the leading edge would
    advance to 1026 nm, past 1025 nm, and is put back at 0; in the first
    iteration it simply advances; with the SAW off it stays. *)
Lemma leading_edge_wraps_past_full_band_witness :
  leading_edge (tick dt_demo (run (repeat (Tick dt_demo) 512) started_world))
  = film_start /\
  leading_edge (tick dt_demo started_world)
  = leading_edge started_world + saw_speed * dt_demo /\
  leading_edge (run [Tick dt_demo; ToggleTribo; Tick dt_demo]
                    (initial_world rnd0))
  = leading_edge (initial_world rnd0).
Proof.
  set (w512 := run (repeat (Tick dt_demo) 512) started_world).
  assert (Hon512 : saw_on w512 = true).
  { unfold w512. rewrite run_saw_on; [reflexivity |].
    intros Hin. apply repeat_spec in Hin. discriminate. }
  assert (Hy512 : saw_visual_y_pos w512 = 1011.5e-9)
    by exact y_pos_after_512.
  destruct (leading_edge_wraps_past_full_band dt_demo w512) as [H512 _].
  destruct (H512 Hon512) as [Hwrap _].
  destruct (leading_edge_wraps_past_full_band dt_demo started_world)
    as [H1 _].
  destruct (H1 eq_refl) as [_ Hadv].
  destruct (leading_edge_wraps_past_full_band dt_demo (initial_world rnd0))
    as [_ H0].
  split; [| split].
  - apply Hwrap. unfold leading_edge. rewrite Hy512. unfold_params. lra.
  - apply Hadv. unfold leading_edge, started_world.
    cbn [toggle_saw initial_world saw_visual_y_pos].
    unfold_params. lra.
  - apply (H0 eq_refl). intros [H | [H | [H | []]]]; discriminate.
Defined.

(** * The read-out is the mean over the active domains *)

Lemma accumulate_active (acc : R * nat) (st : domain_state) :
  accumulate acc st
  = if is_active st
    then (fst acc + completion_perc st, S (snd acc))
    else acc.
Proof.
  unfold accumulate, is_active, completion_perc.
  destruct (is_flipped st); [| reflexivity]. cbn [andb].
  now destruct (Rgtb _ _).
Qed.

Lemma fold_accumulate_mean (sts : list domain_state) (acc : R * nat) :
  fold_left accumulate sts acc
  = (fst acc + Rsum (map completion_perc (filter is_active sts)),
     (snd acc + length (filter is_active sts))%nat).
Proof.
  revert acc. induction sts as [| st sts IH]; intros acc.
  - cbn. destruct acc as [a n]. cbn. f_equal; [lra | lia].
  - cbn [fold_left filter]. rewrite IH, accumulate_active.
    destruct (is_active st); cbn [fst snd map Rsum fold_right length].
    + f_equal; [unfold Rsum; lra | lia].
    + reflexivity.
Qed.

Lemma avg_is_mean (sts : list domain_state) :
  avg_rotation_perc sts = mean_completion sts.
Proof.
  unfold avg_rotation_perc, mean_completion.
  rewrite fold_accumulate_mean. cbn [fst snd].
  rewrite Nat.add_0_l.
  destruct (Nat.ltb 0 (length (filter is_active sts))); [| reflexivity].
  f_equal. lra.
Qed.

(** C9: the average completion is the mean, over the domains that are
    flipped with a recorded maximum more than 1 degree from their
    original angle, of [|current - original| / |max - original| * 100],
    and 0 when there is no such domain; it is 0, and the field estimate
    is the baseline (10 nT), when no domain is displaced.  For any list
    of domain states the estimate lies between the baseline and the
    ceiling chosen by the boost flag (50 nT with it, 30 nT without) and
    is linear in that average: baseline plus (ceiling - baseline) times
    average / 100 while the average is at most 100, the ceiling beyond. *)
Theorem digital_twin_readout (tribo : bool) (sts : list domain_state) :
  avg_rotation_perc sts = mean_completion sts /\
  (Forall undisplaced sts ->
     avg_rotation_perc sts = 0 /\ simulated_delta_B_nT tribo sts = base_nT) /\
  base_nT <= simulated_delta_B_nT tribo sts <= current_max_nT tribo /\
  base_nT = 10 /\ current_max_nT tribo = (if tribo then 50 else 30) /\
  (mean_completion sts <= 100 ->
     simulated_delta_B_nT tribo sts
     = base_nT
       + (current_max_nT tribo - base_nT) * (mean_completion sts / 100)) /\
  (mean_completion sts >= 100 ->
     simulated_delta_B_nT tribo sts = current_max_nT tribo).
Proof.
  pose proof (base_le_current_max tribo) as Hmax.
  pose proof (avg_rotation_perc_nonneg sts) as Havg.
  pose proof (avg_is_mean sts) as Hmean.
  repeat apply conj.
  - exact Hmean.
  - intros Hall. split; [now apply avg_rotation_perc_undisplaced |].
    unfold simulated_delta_B_nT, interpolated_delta_B_nT.
    rewrite (avg_rotation_perc_undisplaced sts Hall).
    replace (base_nT + (current_max_nT tribo - base_nT) * (0 / 100.0))
      with base_nT by lra.
    rewrite Rmin_left by exact Hmax. apply Rmax_left. lra.
  - apply Rmax_l.
  - unfold simulated_delta_B_nT. apply Rmax_lub; [exact Hmax | apply Rmin_r].
  - reflexivity.
  - now destruct tribo.
  - rewrite <- Hmean. intros Hle.
    unfold simulated_delta_B_nT, interpolated_delta_B_nT.
    replace (avg_rotation_perc sts / 100.0) with (avg_rotation_perc sts / 100)
      by lra.
    rewrite Rmin_left by nra. apply Rmax_right. nra.
  - rewrite <- Hmean. intros Hge.
    unfold simulated_delta_B_nT, interpolated_delta_B_nT.
    rewrite Rmin_right by nra. now apply Rmax_right.
Qed.

Lemma radians_ratio (a b : R) : b <> 0 -> radians a / radians b = a / b.
Proof.
  intros Hb. unfold radians. pose proof PI_pos. field. split; lra.
Qed.

(** One domain at -3 of its -15 degrees: 20% and, without the boost,
    14 nT.  One domain at -15.75 of -21 degrees: 75% and, with the
    boost, 40 nT. *)
Lemma digital_twin_readout_witness :
  (avg_rotation_perc [holding_at (-3) 1] = 20 /\
   simulated_delta_B_nT false [holding_at (-3) 1] = 14) /\
  (avg_rotation_perc
     [mkState (radians (-15.75)) (radians (-21)) 1 0 true (radians (-21))]
   = 75 /\
   simulated_delta_B_nT true
     [mkState (radians (-15.75)) (radians (-21)) 1 0 true (radians (-21))]
   = 40).
Proof.
  assert (Hact : forall a m : R, a <= 0 -> m < -1 ->
            mean_completion [mkState (radians a) (radians m) 1 0 true
                               (radians m)]
            = a / m * 100).
  { intros a m Ha Hm. unfold mean_completion, is_active, completion_perc.
    cbn [filter is_flipped max_rotation_rad original_angle_rad andb].
    replace (radians m - 0) with (radians m) by lra.
    assert (E : Rgtb (Rabs (radians m)) (radians 1) = true).
    { apply Rgtb_true. rewrite Rabs_radians. apply radians_lt.
      rewrite Rabs_left; lra. }
    rewrite E. cbn [length Nat.ltb Nat.leb map Rsum fold_right
                    current_angle_rad original_angle_rad max_rotation_rad INR].
    replace (radians a - 0) with (radians a) by lra.
    replace (radians m - 0) with (radians m) by lra.
    rewrite !Rabs_radians, radians_ratio by (rewrite Rabs_left; lra).
    rewrite (Rabs_left1 a), (Rabs_left m) by lra.
    field. lra. }
  assert (H20 : mean_completion [holding_at (-3) 1] = 20).
  { unfold holding_at. rewrite Hact by lra. lra. }
  assert (H75 : mean_completion
                  [mkState (radians (-15.75)) (radians (-21)) 1 0 true
                     (radians (-21))] = 75).
  { rewrite Hact by lra. lra. }
  destruct (digital_twin_readout false [holding_at (-3) 1])
    as (A1 & _ & _ & _ & _ & A2 & _).
  destruct (digital_twin_readout true
              [mkState (radians (-15.75)) (radians (-21)) 1 0 true
                 (radians (-21))])
    as (B1 & _ & _ & _ & _ & B2 & _).
  split; split.
  - now rewrite A1.
  - rewrite A2 by lra. rewrite H20. cbn. unfold_params. lra.
  - now rewrite B1.
  - rewrite B2 by lra. rewrite H75. cbn. unfold_params. lra.
Defined.

(** * Switching the SAW off *)

(** What the rotation/retention code does to a Holding domain. *)
Lemma update_holding_spec (dt : R) (st : domain_state) :
  is_flipped st = true -> retention_timer st > 0 ->
  max_rotation_rad (update_domain dt st) = max_rotation_rad st /\
  (retention_timer st - dt > 0 ->
     tag_of (update_domain dt st) = Holding /\
     retention_timer (update_domain dt st) = retention_timer st - dt /\
     target_angle_rad (update_domain dt st) = target_angle_rad st) /\
  (retention_timer st - dt <= 0 ->
     tag_of (update_domain dt st) = Relaxing /\
     retention_timer (update_domain dt st) = 0 /\
     target_angle_rad (update_domain dt st) = original_angle_rad st) /\
  (Rabs (current_angle_rad st - target_angle_rad st) > epsilon ->
     current_angle_rad (update_domain dt st)
     = normalize (current_angle_rad st
                  + normalize (target_angle_rad st - current_angle_rad st)
                    * 0.2)) /\
  (Rabs (current_angle_rad st - target_angle_rad st) <= epsilon ->
     current_angle_rad (update_domain dt st) = current_angle_rad st).
Proof.
  intros Hf Ht.
  destruct (rotate_frame st) as (Htg & Htm & Ho & Hfl & Hmx).
  assert (Hkeep : current_angle_rad (update_domain dt st)
                  = current_angle_rad (rotate_to_target st)).
  { unfold update_domain. apply retain_keeps_current.
    - now rewrite Hfl.
    - now rewrite Htm. }
  repeat apply conj.
  - destruct (Rle_dec (retention_timer st - dt) 0) as [Hout | Hin].
    + unfold update_domain.
      rewrite retain_expiring by (rewrite ?Hfl, ?Htm; lra || assumption).
      exact Hmx.
    + now destruct (update_holding_counting dt st Hf Ht) as (_ & _ & _ & H & _);
        [lra |].
  - intros Hin.
    destruct (update_holding_counting dt st Hf Ht Hin) as (H1 & H2 & H3 & _).
    repeat apply conj; try assumption.
    apply tag_holding. split; [exact H1 | rewrite H2; lra].
  - intros Hout.
    destruct (update_holding_expiring dt st Hf Ht Hout) as (H1 & H2 & H3).
    repeat apply conj; try assumption.
    apply tag_relaxing. split; [exact H1 | rewrite H2; lra].
  - intros Hfar. rewrite Hkeep. now rewrite rotate_far.
  - intros Hnear. rewrite Hkeep. now rewrite rotate_near.
Qed.

(** What it does to a Relaxing domain whose target is its original
    angle. *)
Lemma update_relaxing_spec (dt : R) (st : domain_state) :
  is_flipped st = true -> retention_timer st <= 0 ->
  target_angle_rad st = original_angle_rad st ->
  target_angle_rad (update_domain dt st) = target_angle_rad st /\
  retention_timer (update_domain dt st) = retention_timer st /\
  (Rabs (current_angle_rad st - original_angle_rad st) > epsilon ->
   Rabs (normalize (current_angle_rad st
                    + normalize (original_angle_rad st - current_angle_rad st)
                      * 0.2)
         - original_angle_rad st) > epsilon ->
     tag_of (update_domain dt st) = Relaxing /\
     current_angle_rad (update_domain dt st)
     = normalize (current_angle_rad st
                  + 0.24 * normalize (original_angle_rad st
                                      - current_angle_rad st)) /\
     max_rotation_rad (update_domain dt st) = max_rotation_rad st) /\
  (Rabs (current_angle_rad st - original_angle_rad st) <= epsilon \/
   Rabs (normalize (current_angle_rad st
                    + normalize (original_angle_rad st - current_angle_rad st)
                      * 0.2)
         - original_angle_rad st) <= epsilon ->
     tag_of (update_domain dt st) = AtRest /\
     current_angle_rad (update_domain dt st) = original_angle_rad st /\
     max_rotation_rad (update_domain dt st) = 0).
Proof.
  intros Hf Ht Htgt.
  destruct (update_relaxing_frame dt st Hf Ht) as [H1 H2].
  split; [exact H1 |]. split; [exact H2 |]. split.
  - intros Hfar Hfar1.
    rewrite (update_relaxing_far dt st Hf Ht Htgt Hfar Hfar1).
    repeat apply conj; [| reflexivity | reflexivity].
    apply tag_relaxing. cbn. now split.
  - intros Hnear.
    assert (Hrest : update_domain dt st
                    = mkState (original_angle_rad st) (target_angle_rad st)
                        (retention_timer st) (original_angle_rad st) false 0.0).
    { destruct (Rle_dec (Rabs (current_angle_rad st - original_angle_rad st))
                        (radians 0.5)) as [Hn | Hfar].
      - unfold update_domain.
        rewrite rotate_near by (rewrite Htgt; exact Hn).
        now rewrite relax_near.
      - destruct Hnear as [Hn | Hn1]; [unfold epsilon in Hn; lra |].
        apply update_relaxing_near; try assumption. lra. }
    rewrite Hrest.
    repeat apply conj; [apply tag_at_rest; reflexivity | reflexivity |].
    cbn. lra.
Qed.

(** C8: the click that switches the SAW off leaves [domain_states] as
    it is.  In every later iteration, as long as the SAW stays off, no
    domain is triggered, whatever the position of the band: a domain at
    rest stays exactly as it is.  A Holding domain keeps its target and
    [max_rotation_rad], its timer goes on counting down by [dt] (and at
    0 the domain turns Relaxing, its target reset to the original
    angle), and its angle takes the 20% step towards the target.  A
    Relaxing domain keeps target and timer and takes its steps towards
    the original angle, or is put back at rest.  All this is exactly
    what an iteration with the SAW on does to a domain in flight. *)
Theorem saw_off_cells_continue
    (w : world) (evs : list event) (dt : R) (c : nat) (p : R)
    (st : domain_state) :
  saw_on w = true -> ~ In ToggleSaw evs ->
  nth_error (domains (run evs (toggle_saw w))) c = Some p ->
  nth_error (domain_states (run evs (toggle_saw w))) c = Some st ->
  domain_states (toggle_saw w) = domain_states w /\
  exists st' : domain_state,
    nth_error (domain_states (tick dt (run evs (toggle_saw w)))) c = Some st' /\
    original_angle_rad st' = original_angle_rad st /\
    (tag_of st = AtRest -> st' = st) /\
    (tag_of st = Holding ->
       max_rotation_rad st' = max_rotation_rad st /\
       (retention_timer st - dt > 0 ->
          tag_of st' = Holding /\
          retention_timer st' = retention_timer st - dt /\
          target_angle_rad st' = target_angle_rad st) /\
       (retention_timer st - dt <= 0 ->
          tag_of st' = Relaxing /\
          retention_timer st' = 0 /\
          target_angle_rad st' = original_angle_rad st) /\
       (Rabs (current_angle_rad st - target_angle_rad st) > epsilon ->
          current_angle_rad st'
          = normalize (current_angle_rad st
                       + normalize (target_angle_rad st - current_angle_rad st)
                         * 0.2)) /\
       (Rabs (current_angle_rad st - target_angle_rad st) <= epsilon ->
          current_angle_rad st' = current_angle_rad st)) /\
    (tag_of st = Relaxing ->
     target_angle_rad st = original_angle_rad st ->
       target_angle_rad st' = target_angle_rad st /\
       retention_timer st' = retention_timer st /\
       (Rabs (current_angle_rad st - original_angle_rad st) > epsilon ->
        Rabs (normalize (current_angle_rad st
                         + normalize (original_angle_rad st
                                      - current_angle_rad st) * 0.2)
              - original_angle_rad st) > epsilon ->
          tag_of st' = Relaxing /\
          current_angle_rad st'
          = normalize (current_angle_rad st
                       + 0.24 * normalize (original_angle_rad st
                                           - current_angle_rad st)) /\
          max_rotation_rad st' = max_rotation_rad st) /\
       (Rabs (current_angle_rad st - original_angle_rad st) <= epsilon \/
        Rabs (normalize (current_angle_rad st
                         + normalize (original_angle_rad st
                                      - current_angle_rad st) * 0.2)
              - original_angle_rad st) <= epsilon ->
          tag_of st' = AtRest /\
          current_angle_rad st' = original_angle_rad st /\
          max_rotation_rad st' = 0)) /\
    (tag_of st <> AtRest ->
       forall (tribo : bool) (z : R), st' = cell_tick dt true tribo z p st).
Proof.
  intros Hon Hno Hp Hst.
  assert (Hoff : saw_on (run evs (toggle_saw w)) = false).
  { rewrite run_saw_on by assumption. cbn. now rewrite Hon. }
  split; [reflexivity |].
  exists (update_domain dt st). repeat apply conj.
  - rewrite (tick_nth dt _ c p st Hp Hst), Hoff. reflexivity.
  - apply update_domain_original.
  - intros Htag. apply update_domain_at_rest. now apply tag_at_rest.
  - intros Htag. apply tag_holding in Htag. destruct Htag as [Hf Ht].
    now apply update_holding_spec.
  - intros Htag Htgt. apply tag_relaxing in Htag. destruct Htag as [Hf Ht].
    now apply update_relaxing_spec.
  - intros Htag tribo z. symmetry. apply cell_tick_flipped.
    now apply not_at_rest.
Qed.

(** The first domain, Holding at -3 degrees with 1.99 s left after the
    first iteration, goes on after the SAW is switched off: -5.4
    degrees, 1.98 s, same target. *)
Lemma saw_off_cells_continue_witness :
  nth_error (domain_states (tick dt_demo (toggle_saw first_pass_world))) 0
  = Some (holding_at (-5.4) (2.0 - dt_demo - dt_demo)).
Proof.
  destruct (saw_off_cells_continue first_pass_world [] dt_demo 0
              (domain_y_pos 0) (holding_at (-3) (2.0 - dt_demo)))
    as (_ & st' & Hnth & _ & _ & _ & _ & Hsame).
  - reflexivity.
  - intros [].
  - reflexivity.
  - exact first_pass_cell_0.
  - change (run [] (toggle_saw first_pass_world))
      with (toggle_saw first_pass_world) in Hnth.
    rewrite Hnth. f_equal.
    rewrite (Hsame ltac:(apply not_at_rest; reflexivity) false 0).
    rewrite cell_tick_flipped by reflexivity.
    rewrite update_holding_at; [f_equal; lra | lra | |];
      unfold_params; lra.
Defined.

(** * A domain in flight is never passed through the trigger *)

Lemma world_at_S (evs : list event) (w : world) (n : nat) :
  world_at evs w (S n)
  = match nth_error evs n with
    | Some e => step e (world_at evs w n)
    | None => world_at evs w n
    end.
Proof. unfold world_at. apply run_firstn_S. Qed.

Lemma cell_at_world_at (evs : list event) (w : world) (c n : nat) :
  cell_at evs w c n = nth_error (domain_states (world_at evs w n)) c.
Proof. reflexivity. Qed.

(** One event on a domain that is flipped: an iteration applies the
    rotation/retention code alone, whatever the SAW does; anything else
    leaves the domain as it is. *)
Lemma flipped_cell_step (evs : list event) (w : world) (c n : nat)
    (s s' : domain_state) :
  cell_at evs w c n = Some s -> cell_at evs w c (S n) = Some s' ->
  tag_of s <> AtRest ->
  match nth_error evs n with
  | Some (Tick dt) => s' = update_domain dt s
  | _ => s' = s
  end.
Proof.
  unfold cell_at. fold (world_at evs w n). fold (world_at evs w (S n)).
  rewrite world_at_S. intros Hs Hs' Htag. apply not_at_rest in Htag.
  destruct (nth_error evs n) as [[dt | |] |]; cbn [step] in Hs'.
  - rewrite tick_cells in Hs'.
    apply map_states_nth_inv in Hs'. destruct Hs' as (p & s0 & _ & Hs0 & ->).
    assert (s0 = s) by congruence. subst s0.
    now apply cell_tick_flipped.
  - change (domain_states (toggle_saw (world_at evs w n)))
      with (domain_states (world_at evs w n)) in Hs'. congruence.
  - change (domain_states (toggle_tribo (world_at evs w n)))
      with (domain_states (world_at evs w n)) in Hs'. congruence.
  - congruence.
Qed.

Lemma triggered_fires (evs : list event) (w : world) (c n : nat) :
  triggered_at evs w c n -> fires_at evs w c n.
Proof.
  intros (dt & p & s & _ & _ & Hs & _ & _ & Htag & Hs').
  exists s, (update_domain dt (trigger (tribo_on (world_at evs w n)) s)).
  repeat apply conj; try assumption.
  apply not_at_rest. apply trigger_then_update_flipped.
Qed.

(** A domain at rest under an enabled band does take the transition. *)
Lemma rest_cell_under_band (evs : list event) (w : world) (c n : nat)
    (dt p : R) (s : domain_state) :
  nth_error evs n = Some (Tick dt) ->
  nth_error (domains (world_at evs w n)) c = Some p ->
  cell_at evs w c n = Some s ->
  saw_on (world_at evs w n) = true ->
  saw_over_domain p (advanced dt (world_at evs w n)) = true ->
  tag_of s = AtRest ->
  triggered_at evs w c n.
Proof.
  intros He Hp Hs Hon Hov Htag.
  exists dt, p, s. repeat apply conj; try assumption.
  unfold cell_at. fold (world_at evs w (S n)). rewrite world_at_S, He.
  cbn [step]. unfold cell_at in Hs. fold (world_at evs w n) in Hs.
  rewrite (tick_nth dt _ c p s Hp Hs). f_equal.
  unfold cell_tick. rewrite Hon.
  rewrite interact_triggers; [reflexivity | exact Hov |].
  now apply tag_at_rest.
Qed.

(** C5: along any sequence of iterations and clicks, from any state.
    While a domain is not at rest, no event applies the trigger to it,
    even with the band over it: an iteration takes it through the
    rotation/retention code alone (so its target, [max_rotation_rad]
    and countdown are not restarted), a click leaves it as it is.  A
    domain at rest under an enabled band does take the AtRest-to-Holding
    transition; and if a domain takes it in event [i] and again in a
    later event [j], some event strictly between the two took the domain
    from Relaxing to AtRest. *)
Theorem no_second_trigger_in_flight (evs : list event) (w : world) (c : nat) :
  (forall (n : nat) (s s' : domain_state),
     cell_at evs w c n = Some s -> cell_at evs w c (S n) = Some s' ->
     tag_of s <> AtRest ->
     match nth_error evs n with
     | Some (Tick dt) => s' = update_domain dt s
     | _ => s' = s
     end) /\
  (forall (n : nat) (dt p : R) (s : domain_state),
     nth_error evs n = Some (Tick dt) ->
     nth_error (domains (world_at evs w n)) c = Some p ->
     cell_at evs w c n = Some s ->
     saw_on (world_at evs w n) = true ->
     saw_over_domain p (advanced dt (world_at evs w n)) = true ->
     tag_of s = AtRest ->
     triggered_at evs w c n) /\
  (forall i j : nat,
     (i < j)%nat ->
     triggered_at evs w c i -> triggered_at evs w c j ->
     exists k : nat, (i < k < j)%nat /\ settles_at evs w c k).
Proof.
  repeat apply conj.
  - intros n s s'. apply flipped_cell_step.
  - intros n dt p s. apply rest_cell_under_band.
  - intros i j Hij Hi Hj.
    apply (settle_between_fires evs w c i j Hij);
      now apply triggered_fires.
Qed.

(** ** The one-domain grid again *)

Lemma probe_worlds :
  let evs := Tick 3 :: repeat (Tick 0) 8 in
  let w := probe saw_start saw_start (new_state 0) in
  world_at evs w 0 = w /\
  world_at evs w 1 = probe 587.5e-9 587.5e-9 (relaxing_at (-3)) /\
  world_at evs w 2 = probe 587.5e-9 587.5e-9 (relaxing_at (0.76 * -3)) /\
  world_at evs w 8 = probe 587.5e-9 587.5e-9 (new_state 0) /\
  world_at evs w 9 = probe 587.5e-9 587.5e-9 (holding_at (-3) 2.0).
Proof.
  intros evs w.
  assert (H1 : run [Tick 3] w = probe 587.5e-9 587.5e-9 (relaxing_at (-3))).
  { rewrite run_cons. cbn [step run fold_left].
    exact tick_probe_trigger_expire. }
  assert (H2 : run [Tick 0] (run [Tick 3] w)
               = probe 587.5e-9 587.5e-9 (relaxing_at (0.76 * -3))).
  { rewrite H1, run_cons. cbn [step].
    rewrite tick_probe_relaxing_far by (rewrite Rabs_left; lra).
    reflexivity. }
  assert (H8 : run (repeat (Tick 0) 7) (run [Tick 3] w)
               = probe 587.5e-9 587.5e-9 (new_state 0)).
  { rewrite H1. cbn [repeat].
    do 6 (rewrite run_cons; cbn [step];
          rewrite tick_probe_relaxing_far by (rewrite Rabs_left; lra)).
    rewrite run_cons. cbn [step].
    rewrite tick_probe_relaxing_near by (rewrite Rabs_left; lra).
    reflexivity. }
  assert (H9 : run [Tick 0] (run (repeat (Tick 0) 7) (run [Tick 3] w))
               = probe 587.5e-9 587.5e-9 (holding_at (-3) 2.0)).
  { rewrite H8, run_cons. cbn [step]. rewrite tick_probe_retrigger.
    reflexivity. }
  assert (E1 : firstn 1 evs = [Tick 3]) by reflexivity.
  assert (E2 : firstn 2 evs = [Tick 3] ++ [Tick 0]) by reflexivity.
  assert (E8 : firstn 8 evs = [Tick 3] ++ repeat (Tick 0) 7) by reflexivity.
  assert (E9 : firstn 9 evs = ([Tick 3] ++ repeat (Tick 0) 7) ++ [Tick 0])
    by reflexivity.
  unfold world_at. rewrite E1, E2, E8, E9, !run_app, H9, H8, H2, H1.
  repeat apply conj; reflexivity.
Qed.

(** The band sits over the domain from the first event on.  The domain
    is triggered by event 0 and, back at rest, by event 8; in event 1,
    in flight under the band, it only takes its relaxing steps; it
    settles in between. *)
Lemma no_second_trigger_in_flight_witness :
  relaxing_at (0.76 * -3) = update_domain 0 (relaxing_at (-3)) /\
  exists k : nat,
    (0 < k < 8)%nat /\
    settles_at (Tick 3 :: repeat (Tick 0) 8)
               (probe saw_start saw_start (new_state 0)) 0 k.
Proof.
  set (evs := Tick 3 :: repeat (Tick 0) 8).
  set (w := probe saw_start saw_start (new_state 0)).
  destruct probe_worlds as (W0 & W1 & W2 & W8 & W9).
  fold evs in W0, W1, W2, W8, W9. fold w in W0, W1, W2, W8, W9.
  assert (C0 : cell_at evs w 0 0 = Some (new_state 0)).
  { rewrite cell_at_world_at, W0. reflexivity. }
  assert (C1 : cell_at evs w 0 1 = Some (relaxing_at (-3))).
  { rewrite cell_at_world_at, W1. reflexivity. }
  assert (C2 : cell_at evs w 0 2 = Some (relaxing_at (0.76 * -3))).
  { rewrite cell_at_world_at, W2. reflexivity. }
  assert (C8 : cell_at evs w 0 8 = Some (new_state 0)).
  { rewrite cell_at_world_at, W8. reflexivity. }
  assert (Hov : saw_over_domain (domain_y_pos 23) 587.5e-9 = true)
    by exact over_the_probe.
  assert (A0 : advanced 3 (world_at evs w 0) = 587.5e-9).
  { rewrite W0. unfold advanced, w. cbn [probe saw_visual_y_pos].
    unfold_params. lra. }
  assert (A8 : advanced 0 (world_at evs w 8) = 587.5e-9).
  { rewrite W8. unfold advanced. cbn [probe saw_visual_y_pos]. lra. }
  assert (D0 : nth_error (domains (world_at evs w 0)) 0
               = Some (domain_y_pos 23)) by now rewrite W0.
  assert (D8 : nth_error (domains (world_at evs w 8)) 0
               = Some (domain_y_pos 23)) by now rewrite W8.
  assert (S0 : saw_on (world_at evs w 0) = true) by now rewrite W0.
  assert (S8 : saw_on (world_at evs w 8) = true) by now rewrite W8.
  assert (Hflipped : tag_of (relaxing_at (-3)) <> AtRest)
    by (apply not_at_rest; reflexivity).
  destruct (no_second_trigger_in_flight evs w 0)
    as (Hflight & Htrig & Hbetween).
  split.
  - exact (Hflight 1%nat (relaxing_at (-3)) (relaxing_at (0.76 * -3))
             C1 C2 Hflipped).
  - apply (Hbetween 0%nat 8%nat); [lia | |].
    + apply (Htrig 0%nat 3 (domain_y_pos 23) (new_state 0));
        try assumption; try reflexivity.
      now rewrite A0.
    + apply (Htrig 8%nat 0 (domain_y_pos 23) (new_state 0));
        try assumption; try reflexivity.
      now rewrite A8.
Defined.
